(** * face-forge-identity-hub: the live recognition pipeline

    A shallow embedding of [src/components/LiveRecognition.tsx]: the
    per-frame matching pass of [processFrame], the statistics and history
    updates it performs, and the start/stop scheduling done by
    [toggleRecognition] through [setInterval].

    Conventions of the embedding.
    - A JavaScript [number] is a rational ([Q]) and arithmetic on numbers
      is exact; counters that the code only increments or takes as a
      length are [nat]; clock readings (milliseconds, [Date.now()]) are
      [Z].  The match decision of line 225 compares with the double that
      the literal 0.6 denotes, and what is proved about it is proved over
      the distances as computed ([scanComputed]), whatever the machine
      made of the product of line 223.
    - [Math.random()] reads the next cell of a tape of draws; a
      computation that draws is a function of the tape and a cursor (the
      [Rand] monad below).  Draws lie in the unit interval [0,1), which is
      an explicit hypothesis wherever it matters.
    - A function created by [useCallback] is a closure: it sees the state
      values of the render that created it.  The embedding passes these
      captured values as a record ([Captured.t]); refs ([useRef]) and
      functional state updates ([setX(prev => ...)]) act on the current
      component state. *)

From Stdlib Require Import QArith ZArith String List Bool Lia Lqa PeanoNat.
Import ListNotations.

Set Implicit Arguments.

(** ** Random draws *)

Module Rand.

Definition Tape := nat -> Q.

(** A computation that may call [Math.random()]: it reads the tape from
    a cursor and returns its result with the advanced cursor. *)
Definition t (A : Type) := Tape -> nat -> A * nat.

Definition ret {A} (a : A) : t A := fun _ k => (a, k).

Definition bind {A B} (m : t A) (f : A -> t B) : t B :=
  fun tape k => let (a, k') := m tape k in f a tape k'.

(** [Math.random()] *)
Definition Math_random : t Q := fun tape k => (tape k, S k).

Definition eval {A} (m : t A) (tape : Tape) (k : nat) : A := fst (m tape k).

(** The range of [Math.random()]: 0 inclusive to 1 exclusive. *)
Definition unit_interval (tape : Tape) : Prop :=
  forall n, (0 <= tape n /\ tape n < 1)%Q.

End Rand.

Declare Scope rand_scope.
Delimit Scope rand_scope with rand.
Notation "x <- m ;; k" := (Rand.bind m (fun x => k))
  (at level 61, m at next level, right associativity) : rand_scope.

(** ** Data model *)

(** [interface FaceRegistration] (a row of [face_registrations]);
    [created_at] is the ISO-8601 text the store returns, compared as
    text. *)
Module FaceRegistration.
Record t := mk {
  id : string;
  name : string;
  face_encoding : string;
  created_at : string
}.
End FaceRegistration.

Record Box := { x : Q; y : Q; width : Q; height : Q }.

(** One element of the array face-api resolves to: the detection box and
    the face descriptor. *)
Record Detection := { box : Box; descriptor : list Q }.

(** [interface RecognitionResult].  The [id] field holds the draw that
    [Math.random().toString(36).substr(2, 9)] renders in base 36. *)
Module RecognitionResult.
Record t := mk {
  id : Q;
  name : string;
  confidence : Q;
  box : Box;
  timestamp : Z
}.
End RecognitionResult.

(** [interface Statistics] *)
Record Statistics := {
  detectedFaces : nat;
  recognitionAccuracy : Q;
  frameRate : Q;
  totalRecognitions : nat
}.

(** The local [bestMatch: { name: string; distance: number } | null]. *)
Module BestMatch.
Record t := mk { name : string; distance : Q }.
End BestMatch.

Definition Qltb (a b : Q) : bool := negb (Qle_bool b a).

Definition Unknown_Person : string := "Unknown Person".

(** ** The matching pass of [processFrame] *)

Section Matching.
Local Open Scope Q_scope.
Local Open Scope rand_scope.

(** [Math.random() * 0.8], the comparison of a detected face with a
    registered one (lines 221-223). *)
Definition mockDistance : Rand.t Q :=
  r <- Rand.Math_random ;; Rand.ret (r * (8 # 10)).

(** The distance [processFrame] obtains for a probe embedding [a] and
    an enrolled embedding [b]: the mock comparison, which reads neither
    of them. *)
Definition distance (a b : list Q) : Rand.t Q := mockDistance.

(** The hardcoded match threshold of line 225: the double that the
    literal [0.6] denotes, 5404319552844595 / 2^53, a little below 6/10.
    A distance that is a double is below it exactly when the comparison
    of line 225 holds. *)
Definition threshold : Q := 5404319552844595 # 9007199254740992.

(** The [if] of lines 225-227: the update of [bestMatch] by one
    registered face whose distance is [d]. *)
Definition updateBest (bestMatch : option BestMatch.t)
    (registered : FaceRegistration.t) (d : Q) : option BestMatch.t :=
  if Qltb d threshold
     && match bestMatch with
        | None => true
        | Some b => Qltb d (BestMatch.distance b)
        end
  then Some (BestMatch.mk (FaceRegistration.name registered) d)
  else bestMatch.

(** [for (const registered of registeredFaces) { ... }] *)
Fixpoint scanRegistered (registeredFaces : list FaceRegistration.t)
    (bestMatch : option BestMatch.t) : Rand.t (option BestMatch.t) :=
  match registeredFaces with
  | [] => Rand.ret bestMatch
  | registered :: rest =>
      d <- mockDistance ;;
      scanRegistered rest (updateBest bestMatch registered d)
  end.

(** [bestMatch ? bestMatch.name : 'Unknown Person'] *)
Definition nameOf (bestMatch : option BestMatch.t) : string :=
  match bestMatch with
  | Some b => BestMatch.name b
  | None => Unknown_Person
  end.

(** [bestMatch ? (1 - bestMatch.distance) * 100 : 0] *)
Definition confidenceOf (bestMatch : option BestMatch.t) : Q :=
  match bestMatch with
  | Some b => (1 - BestMatch.distance b) * 100
  | None => 0
  end.

(** The body of [for (const detection of detections)], lines 217-246:
    the scan of the gallery, then the result record. *)
Definition recognise (registeredFaces : list FaceRegistration.t)
    (now : Z) (detection : Detection) : Rand.t RecognitionResult.t :=
  bestMatch <- scanRegistered registeredFaces None ;;
  i <- Rand.Math_random ;;
  Rand.ret (RecognitionResult.mk i (nameOf bestMatch)
              (confidenceOf bestMatch) (box detection) now).

(** [for (const detection of detections) { ...; results.push(result) }] *)
Fixpoint matchDetections (registeredFaces : list FaceRegistration.t)
    (now : Z) (detections : list Detection)
    : Rand.t (list RecognitionResult.t) :=
  match detections with
  | [] => Rand.ret []
  | detection :: rest =>
      result <- recognise registeredFaces now detection ;;
      results <- matchDetections registeredFaces now rest ;;
      Rand.ret (result :: results)
  end.

End Matching.

(** ** Component state *)

(** What the continuation of [processFrame] reads and writes: the state
    cells [recognitionResults], [recognitionHistory], [statistics] and the
    refs [frameCountRef], [lastFrameTimeRef]. *)
Record Pipeline := {
  recognitionResults : list RecognitionResult.t;
  recognitionHistory : list RecognitionResult.t;
  statistics : Statistics;
  frameCountRef : nat;
  lastFrameTimeRef : Z
}.

(** The flags and handles of the session.  A ref to a DOM element or to a
    stream is modelled by whether its [current] is non-null; [context2d]
    says whether [canvas.getContext('2d')] gives a context; [intervalRef]
    holds the handle [setInterval] returned. *)
Record Session := {
  isRecognitionActive : bool;
  isCameraActive : bool;
  isModelsLoaded : bool;
  registeredFaces : list FaceRegistration.t;
  videoRef : bool;
  canvasRef : bool;
  context2d : bool;
  streamRef : bool;
  intervalRef : option nat
}.

(** The values [processFrame] closes over, its [useCallback] dependency
    list [[isModelsLoaded, isRecognitionActive, registeredFaces]]. *)
Module Captured.
Record t := mk {
  isModelsLoaded : bool;
  isRecognitionActive : bool;
  registeredFaces : list FaceRegistration.t
}.
End Captured.

(** The outcome of [await faceapi.detectAllFaces(...)...]: the detections,
    or a rejection, which the [try]/[catch] of [processFrame] logs. *)
Inductive Detected :=
| Faces (detections : list Detection)
| Rejected.

Section ProcessFrame.
Local Open Scope Q_scope.
Local Open Scope rand_scope.

(** Lines 189-195, the synchronous prefix of [processFrame]: [true] when
    the call gets past both early returns and so calls the detector. *)
Definition processFrame_enters (c : Captured.t) (s : Session) : bool :=
  videoRef s && canvasRef s
  && Captured.isModelsLoaded c && Captured.isRecognitionActive c
  && context2d s.

(** [results.filter(r => r.name !== 'Unknown Person')] *)
Definition recognised (results : list RecognitionResult.t)
    : list RecognitionResult.t :=
  filter (fun r => negb (String.eqb (RecognitionResult.name r) Unknown_Person))
         results.

Definition ofNat (n : nat) : Q := inject_Z (Z.of_nat n).

(** Lines 271-272. *)
Definition accuracyOf (results : list RecognitionResult.t) : Q :=
  if (0 <? length results)%nat
  then ofNat (length (recognised results)) / ofNat (length results) * 100
  else 0.

(** Lines 264-283, "Update statistics". *)
Definition updateStatistics (results : list RecognitionResult.t) (now : Z)
    (p : Pipeline) : Pipeline :=
  let frameCount := S (frameCountRef p) in
  let timeDiff := (now - lastFrameTimeRef p)%Z in
  if (1000 <=? timeDiff)%Z then
    let fps := inject_Z (Z.of_nat frameCount * 1000) / inject_Z timeDiff in
    let prev := statistics p in
    {| recognitionResults := recognitionResults p;
       recognitionHistory := recognitionHistory p;
       statistics :=
         {| detectedFaces := length results;
            recognitionAccuracy := accuracyOf results;
            frameRate := fps;
            totalRecognitions :=
              (totalRecognitions prev + length (recognised results))%nat |};
       frameCountRef := 0;
       lastFrameTimeRef := now |}
  else
    {| recognitionResults := recognitionResults p;
       recognitionHistory := recognitionHistory p;
       statistics := statistics p;
       frameCountRef := frameCount;
       lastFrameTimeRef := lastFrameTimeRef p |}.

(** Lines 285-288, [[...results, ...prev].slice(0, 100)]. *)
Definition addToHistory (results prev : list RecognitionResult.t)
    : list RecognitionResult.t :=
  firstn 100 (results ++ prev).

(** Lines 207-211, the branch taken when [detections.length === 0]. *)
Definition noFaces (p : Pipeline) : Pipeline :=
  let prev := statistics p in
  {| recognitionResults := [];
     recognitionHistory := recognitionHistory p;
     statistics :=
       {| detectedFaces := 0;
          recognitionAccuracy := recognitionAccuracy prev;
          frameRate := frameRate prev;
          totalRecognitions := totalRecognitions prev |};
     frameCountRef := frameCountRef p;
     lastFrameTimeRef := lastFrameTimeRef p |}.

(** Lines 262-288: what follows the matching loop. *)
Definition deliver (results : list RecognitionResult.t) (now : Z)
    (p : Pipeline) : Pipeline :=
  let p1 :=
    {| recognitionResults := results;
       recognitionHistory := recognitionHistory p;
       statistics := statistics p;
       frameCountRef := frameCountRef p;
       lastFrameTimeRef := lastFrameTimeRef p |} in
  let p2 := updateStatistics results now p1 in
  {| recognitionResults := recognitionResults p2;
     recognitionHistory := addToHistory results (recognitionHistory p2);
     statistics := statistics p2;
     frameCountRef := frameCountRef p2;
     lastFrameTimeRef := lastFrameTimeRef p2 |}.

(** Lines 206-301, [processFrame] from the point where the detector
    settles.  [now] is the reading of the clock during this pass; it
    stands for [Date.now()] of line 266 and also for the [new Date()] of
    each result, on which no statement below relies.  The canvas drawing and the WebSocket
    send of lines 248-259 and 290-297 write to the canvas and the socket
    only and are left out. *)
Definition processFrame_resume (c : Captured.t) (outcome : Detected)
    (now : Z) (p : Pipeline) : Rand.t Pipeline :=
  match outcome with
  | Rejected => Rand.ret p
  | Faces detections =>
      if (length detections =? 0)%nat then Rand.ret (noFaces p)
      else
        results <- matchDetections (Captured.registeredFaces c) now detections ;;
        Rand.ret (deliver results now p)
  end.

(** The results a pass publishes to the history: those of a pass that
    found faces. *)
Definition published (outcome : Detected) (p' : Pipeline)
    : list RecognitionResult.t :=
  match outcome with
  | Faces (_ :: _) => recognitionResults p'
  | _ => []
  end.

(** A run of passes, one per settled detector call (the closure of the
    call, the detector's outcome, the clock), together with the log of
    everything published so far, newest first. *)
Fixpoint processFrames (frames : list (Captured.t * Detected * Z))
    (p : Pipeline) (log : list RecognitionResult.t)
    : Rand.t (Pipeline * list RecognitionResult.t) :=
  match frames with
  | [] => Rand.ret (p, log)
  | (c, outcome, now) :: rest =>
      p' <- processFrame_resume c outcome now p ;;
      processFrames rest p' (published outcome p' ++ log)
  end.

End ProcessFrame.

(** ** The scheduler: [toggleRecognition], [setInterval] and the handlers *)

Record Toast := { title : string; description : string; variant : string }.

Definition Camera_Required : Toast :=
  {| title := "Camera Required";
     description := "Please start the camera first.";
     variant := "destructive" |}.

Definition Camera_Error : Toast :=
  {| title := "Camera Error";
     description := "Failed to access camera. Please check permissions.";
     variant := "destructive" |}.

Definition Model_Loading_Error : Toast :=
  {| title := "Model Loading Error";
     description :=
       "Failed to load face recognition models. Please refresh the page.";
     variant := "destructive" |}.

Definition Database_Error : Toast :=
  {| title := "Database Error";
     description := "Failed to load registered faces.";
     variant := "destructive" |}.

(** The component together with the part of the JavaScript runtime it
    drives: the live [setInterval] registrations (handle and callback;
    the callback is a [processFrame] closure), the [processFrame] calls
    suspended at [await] on the detector, the number of detector calls
    started so far, the toasts shown, and the cursor of the tape of
    draws. *)
Record World := {
  session : Session;
  pipeline : Pipeline;
  timers : list (nat * Captured.t);
  nextHandle : nat;
  inFlight : list Captured.t;
  detectCalls : nat;
  toasts : list Toast;
  cursor : nat
}.

(** The [processFrame] of the current render: [useCallback] rebuilds it
    from the state of the render whenever a dependency changed, so the
    closure carries the state values of that render. *)
Definition render (s : Session) : Captured.t :=
  Captured.mk (isModelsLoaded s) (isRecognitionActive s) (registeredFaces s).

Definition clearInterval (h : nat) (ts : list (nat * Captured.t))
    : list (nat * Captured.t) :=
  filter (fun t => negb (fst t =? h)) ts.

Definition withSession (w : World) (s : Session) : World :=
  {| session := s; pipeline := pipeline w; timers := timers w;
     nextHandle := nextHandle w; inFlight := inFlight w;
     detectCalls := detectCalls w; toasts := toasts w; cursor := cursor w |}.

Definition withToast (w : World) (t : Toast) : World :=
  {| session := session w; pipeline := pipeline w; timers := timers w;
     nextHandle := nextHandle w; inFlight := inFlight w;
     detectCalls := detectCalls w; toasts := t :: toasts w;
     cursor := cursor w |}.

(** Lines 305-325.  The handler belongs to the current render, so the
    [isRecognitionActive], [isCameraActive] and [processFrame] it closes
    over are those of the current state; the callback handed to
    [setInterval] is that render's [processFrame]. *)
Definition toggleRecognition (w : World) : World :=
  let s := session w in
  if isRecognitionActive s then
    {| session :=
         {| isRecognitionActive := false;
            isCameraActive := isCameraActive s;
            isModelsLoaded := isModelsLoaded s;
            registeredFaces := registeredFaces s;
            videoRef := videoRef s; canvasRef := canvasRef s;
            context2d := context2d s; streamRef := streamRef s;
            intervalRef := None |};
       pipeline := pipeline w;
       timers := match intervalRef s with
                 | Some h => clearInterval h (timers w)
                 | None => timers w
                 end;
       nextHandle := nextHandle w; inFlight := inFlight w;
       detectCalls := detectCalls w; toasts := toasts w;
       cursor := cursor w |}
  else if negb (isCameraActive s) then withToast w Camera_Required
  else
    {| session :=
         {| isRecognitionActive := true;
            isCameraActive := isCameraActive s;
            isModelsLoaded := isModelsLoaded s;
            registeredFaces := registeredFaces s;
            videoRef := videoRef s; canvasRef := canvasRef s;
            context2d := context2d s; streamRef := streamRef s;
            intervalRef := Some (nextHandle w) |};
       pipeline := pipeline w;
       timers := (nextHandle w, render s) :: timers w;
       nextHandle := S (nextHandle w); inFlight := inFlight w;
       detectCalls := detectCalls w; toasts := toasts w;
       cursor := cursor w |}.

(** Lines 146-172; [granted] says whether [getUserMedia] resolved. *)
Definition startCamera (granted : bool) (w : World) : World :=
  let s := session w in
  if granted then
    if videoRef s then
      withSession w
        {| isRecognitionActive := isRecognitionActive s;
           isCameraActive := true;
           isModelsLoaded := isModelsLoaded s;
           registeredFaces := registeredFaces s;
           videoRef := videoRef s; canvasRef := canvasRef s;
           context2d := context2d s; streamRef := true;
           intervalRef := intervalRef s |}
    else w
  else withToast w Camera_Error.

(** Lines 175-185.  The interval is not cleared here. *)
Definition stopCamera (w : World) : World :=
  let s := session w in
  withSession w
    {| isRecognitionActive := false;
       isCameraActive := false;
       isModelsLoaded := isModelsLoaded s;
       registeredFaces := registeredFaces s;
       videoRef := videoRef s; canvasRef := canvasRef s;
       context2d := context2d s; streamRef := false;
       intervalRef := intervalRef s |}.

(** Lines 61-78. *)
Definition loadModels (ok : bool) (w : World) : World :=
  let s := session w in
  if ok then
    withSession w
      {| isRecognitionActive := isRecognitionActive s;
         isCameraActive := isCameraActive s;
         isModelsLoaded := true;
         registeredFaces := registeredFaces s;
         videoRef := videoRef s; canvasRef := canvasRef s;
         context2d := context2d s; streamRef := streamRef s;
         intervalRef := intervalRef s |}
  else withToast w Model_Loading_Error.

(** Lines 81-98; [rows] is the answer of the store, newest
    [created_at] first, or [None] on error. *)
Definition loadRegisteredFaces (rows : option (list FaceRegistration.t))
    (w : World) : World :=
  let s := session w in
  match rows with
  | Some data =>
      withSession w
        {| isRecognitionActive := isRecognitionActive s;
           isCameraActive := isCameraActive s;
           isModelsLoaded := isModelsLoaded s;
           registeredFaces := data;
           videoRef := videoRef s; canvasRef := canvasRef s;
           context2d := context2d s; streamRef := streamRef s;
           intervalRef := intervalRef s |}
  | None => withToast w Database_Error
  end.

(** The timer with handle [h] fires: its callback runs up to the first
    early return or up to the [await] on the detector. *)
Definition tick (h : nat) (w : World) : World :=
  match find (fun t => fst t =? h) (timers w) with
  | Some (_, c) =>
      if processFrame_enters c (session w) then
        {| session := session w; pipeline := pipeline w; timers := timers w;
           nextHandle := nextHandle w; inFlight := inFlight w ++ [c];
           detectCalls := S (detectCalls w); toasts := toasts w;
           cursor := cursor w |}
      else w
  | None => w
  end.

(** The detector call of the [i]-th suspended [processFrame] settles and
    that call runs to its end. *)
Definition settle (tape : Rand.Tape) (i : nat) (outcome : Detected) (now : Z)
    (w : World) : World :=
  match nth_error (inFlight w) i with
  | Some c =>
      let (p', k') := processFrame_resume c outcome now (pipeline w)
                        tape (cursor w) in
      {| session := session w; pipeline := p'; timers := timers w;
         nextHandle := nextHandle w;
         inFlight := firstn i (inFlight w) ++ skipn (S i) (inFlight w);
         detectCalls := detectCalls w; toasts := toasts w; cursor := k' |}
  | None => w
  end.

Inductive Event :=
| ModelsLoaded (ok : bool)
| FacesLoaded (rows : option (list FaceRegistration.t))
| StartCamera (granted : bool)
| StopCamera
| ToggleRecognition
| Tick (handle : nat)
| Settled (i : nat) (outcome : Detected) (now : Z).

Definition step (tape : Rand.Tape) (e : Event) (w : World) : World :=
  match e with
  | ModelsLoaded ok => loadModels ok w
  | FacesLoaded rows => loadRegisteredFaces rows w
  | StartCamera granted => startCamera granted w
  | StopCamera => stopCamera w
  | ToggleRecognition => toggleRecognition w
  | Tick h => tick h w
  | Settled i outcome now => settle tape i outcome now w
  end.

Definition run (tape : Rand.Tape) (events : list Event) (w : World) : World :=
  fold_left (fun w e => step tape e w) events w.

(** The component after its first render, mounted at time [t0]: the
    initial values of every [useState] and [useRef], with the video and
    canvas elements attached. *)
Definition mount (ctx : bool) (t0 : Z) : World :=
  {| session :=
       {| isRecognitionActive := false; isCameraActive := false;
          isModelsLoaded := false; registeredFaces := [];
          videoRef := true; canvasRef := true; context2d := ctx;
          streamRef := false; intervalRef := None |};
     pipeline :=
       {| recognitionResults := []; recognitionHistory := [];
          statistics :=
            {| detectedFaces := 0; recognitionAccuracy := 0;
               frameRate := 0; totalRecognitions := 0 |};
          frameCountRef := 0; lastFrameTimeRef := t0 |};
     timers := []; nextHandle := 1; inFlight := []; detectCalls := 0;
     toasts := []; cursor := 0 |}.


(** The session states of the specification, read off the two flags. *)
Inductive SessionState := Idle | CameraReady | Recognizing.

Definition sessionState (s : Session) : SessionState :=
  if isCameraActive s
  then if isRecognitionActive s then Recognizing else CameraReady
  else Idle.

(** What holds of the runtime in every reachable world: the callback of
    every live timer is a [processFrame] whose captured
    [isRecognitionActive] is [false], no call is suspended on the
    detector, and no detector call has been started. *)
Definition quiet (w : World) : Prop :=
  (forall h c, In (h, c) (timers w) -> Captured.isRecognitionActive c = false)
  /\ inFlight w = []
  /\ detectCalls w = 0%nat.

(** ** Derived views used in the statements *)

Section Views.
Local Open Scope Q_scope.

(** The distance the scan started at cursor [k] draws for the [i]-th
    registered face. *)
Definition dist (tape : Rand.Tape) (k i : nat) : Q := tape (k + i)%nat * (8 # 10).

(** The loop of lines 219-231 over the distances that line 223
    computed: [ds] holds, in gallery order, the value of [mockDistance]
    for each registered face, whatever the machine made of the product. *)
Fixpoint scanComputed (registeredFaces : list FaceRegistration.t)
    (ds : list Q) (bestMatch : option BestMatch.t) : option BestMatch.t :=
  match registeredFaces, ds with
  | registered :: rest, d :: ds' =>
      scanComputed rest ds' (updateBest bestMatch registered d)
  | _, _ => bestMatch
  end.

(** The values [mockDistance] returns to a scan of [n] faces that starts
    at cursor [k]. *)
Definition computed (tape : Rand.Tape) (k n : nat) : list Q :=
  map (fun i => Rand.eval mockDistance tape (k + i)%nat) (seq 0 n).

(** Lines 233-244: the result record built from [bestMatch], the id, the
    box of the detection and the clock reading. *)
Definition resultOf (bestMatch : option BestMatch.t) (id : Q) (b : Box)
    (now : Z) : RecognitionResult.t :=
  RecognitionResult.mk id (nameOf bestMatch) (confidenceOf bestMatch) b now.

(** [m] is the least of the distances [ds]. *)
Definition least (m : Q) (ds : list Q) : Prop :=
  In m ds /\ forall d, In d ds -> m <= d.

(** The test of line 225: [d] replaces the running best match. *)
Definition improves (best : option BestMatch.t) (d : Q) : Prop :=
  d < threshold /\
  match best with None => True | Some b => d < BestMatch.distance b end.

(** The store's order: newest [created_at] first (line 86,
    [order('created_at', { ascending: false })]). *)
Fixpoint newest_first (faces : list FaceRegistration.t) : bool :=
  match faces with
  | f :: (g :: _) as rest =>
      String.leb (FaceRegistration.created_at g) (FaceRegistration.created_at f)
      && newest_first rest
  | _ => true
  end.

(** Two scans of the same gallery, one after the other. *)
Definition scanTwice (faces : list FaceRegistration.t)
    : Rand.t (option BestMatch.t * option BestMatch.t) :=
  (b1 <- scanRegistered faces None ;;
   b2 <- scanRegistered faces None ;;
   Rand.ret (b1, b2))%rand.

(** Three distance computations in a row: [(a,b)], [(a,b)] again, and
    [(b,a)]. *)
Definition distanceThrice (a b : list Q) : Rand.t (Q * Q * Q) :=
  (d1 <- distance a b ;;
   d2 <- distance a b ;;
   d3 <- distance b a ;;
   Rand.ret (d1, d2, d3))%rand.

End Views.

(** ** The formulas as the specification words them *)

Section SpecWords.
Local Open Scope Q_scope.

Definition clamp (v lo hi : Q) : Q :=
  if Qltb v lo then lo else if Qltb hi v then hi else v.

(** [clamp((1 - distance/distance_max) * 100, 0, 100)] *)
Definition confidence_spec (distance_max d : Q) : Q :=
  clamp ((1 - d / distance_max) * 100) 0 100.


End SpecWords.

(** ** Concrete data for the examples *)

Section Examples.
Local Open Scope Q_scope.

Definition alice : FaceRegistration.t :=
  FaceRegistration.mk "id-a" "Alice" "[0.1,0.2]" "2024-01-01T00:00:00+00:00".

Definition bob : FaceRegistration.t :=
  FaceRegistration.mk "id-b" "Bob" "[0.3,0.4]" "2024-02-01T00:00:00+00:00".

(** Every draw is 1/2: every mock distance is 0.4. *)
Definition tape_half : Rand.Tape := fun _ => 1 # 2.

(** 1/2, 1/3, 1/4, ... *)
Definition tape_harmonic : Rand.Tape := fun n => 1 # Pos.of_nat (n + 2).

(** Every draw is 1/2 except the draw at position 3, which is 1/4. *)
Definition tape_dip : Rand.Tape :=
  fun n => if (n =? 3)%nat then 1 # 4 else 1 # 2.

(** Every draw is 1/4 except the draw at position 4, which is 7/8: the
    mock distance there is 0.7. *)
Definition tape_miss : Rand.Tape :=
  fun n => if (n =? 4)%nat then 7 # 8 else 1 # 4.

Definition face0 : Detection :=
  {| box := {| x := 10; y := 20; width := 100; height := 120 |};
     descriptor := [1 # 10; 2 # 10] |}.

Definition face1 : Detection :=
  {| box := {| x := 300; y := 40; width := 90; height := 110 |};
     descriptor := [3 # 10; 4 # 10] |}.

Definition recognising (faces : list FaceRegistration.t) : Captured.t :=
  Captured.mk true true faces.

(** A pipeline in mid-session: one frame counted in a window opened at
    time 0, statistics from an earlier flush. *)
Definition pipeline_mid : Pipeline :=
  {| recognitionResults := []; recognitionHistory := [];
     statistics :=
       {| detectedFaces := 2; recognitionAccuracy := 50;
          frameRate := 2; totalRecognitions := 3 |};
     frameCountRef := 1; lastFrameTimeRef := 0 |}.

End Examples.

(** ** Runs of passes *)

Section Passes.
Local Open Scope rand_scope.

(** The result list a pass computes in the loop of lines 214-260: one
    result per detection, none when the detector found no face or
    failed. *)
Definition passResults (c : Captured.t) (outcome : Detected) (now : Z)
    : Rand.t (list RecognitionResult.t) :=
  match outcome with
  | Faces detections =>
      matchDetections (Captured.registeredFaces c) now detections
  | Rejected => Rand.ret []
  end.

(** A run of passes, each given by the closure of the call, the
    detector's outcome and the clock: the pipeline after the last pass,
    together with the log of every result the passes computed, newest
    pass first, in the order of the detections within a pass.  The log
    is taken from the matching loop, not from the pipeline. *)
Fixpoint runPasses (frames : list (Captured.t * Detected * Z))
    (p : Pipeline) (log : list RecognitionResult.t)
    : Rand.t (Pipeline * list RecognitionResult.t) :=
  match frames with
  | [] => Rand.ret (p, log)
  | (c, outcome, now) :: rest =>
      fun tape k =>
        let results := Rand.eval (passResults c outcome now) tape k in
        let (p', k') := processFrame_resume c outcome now p tape k in
        runPasses rest p' (results ++ log) tape k'
  end.




End Passes.

(** A face in the top left corner, to tell one frame from the others. *)
Definition corner : Detection :=
  {| box := {| x := 0; y := 0; width := 1; height := 1 |};
     descriptor := [] |}.

(** 51 frames of two faces each: the first shows [corner] twice, the 50
    that follow show [face0] and [face1]. *)
Definition fiftyOneFrames : list (Captured.t * Detected * Z) :=
  (recognising [alice], Faces [corner; corner], 0%Z)
  :: map (fun i => (recognising [alice], Faces [face0; face1],
                    Z.of_nat (S i)))
         (seq 0 50).

(** One frame of 101 faces. *)
Definition crowdedFrame : list (Captured.t * Detected * Z) :=
  [(recognising [alice], Faces (repeat face0 101), 0%Z)].


(** ** The buttons *)

(** Line 450, [disabled={!isCameraActive || !isModelsLoaded}]. *)
Definition recognitionButtonDisabled (s : Session) : bool :=
  negb (isCameraActive s) || negb (isModelsLoaded s).

(** What can happen to the mounted component when it is driven through
    its buttons: a click on the camera button ([granted] says whether
    [getUserMedia] then resolves), a click on the recognition button, and
    the events of the runtime. *)
Inductive UiEvent :=
| ClickCamera (granted : bool)
| ClickRecognition
| ModelsSettled (ok : bool)
| FacesSettled (rows : option (list FaceRegistration.t))
| TimerFired (handle : nat)
| DetectorSettled (i : nat) (outcome : Detected) (now : Z).

(** Line 428, [onClick={isCameraActive ? stopCamera : startCamera}], and
    lines 449-450: a disabled button does not fire. *)
Definition ui_step (tape : Rand.Tape) (u : UiEvent) (w : World) : World :=
  match u with
  | ClickCamera granted =>
      if isCameraActive (session w) then stopCamera w
      else startCamera granted w
  | ClickRecognition =>
      if recognitionButtonDisabled (session w) then w
      else toggleRecognition w
  | ModelsSettled ok => loadModels ok w
  | FacesSettled rows => loadRegisteredFaces rows w
  | TimerFired h => tick h w
  | DetectorSettled i outcome now => settle tape i outcome now w
  end.

Definition ui_run (tape : Rand.Tape) (events : list UiEvent) (w : World)
    : World :=
  fold_left (fun w u => ui_step tape u w) events w.

(** Lines 352-362, the cleanup of the mount effect, as far as the
    timers go: it clears the interval whose handle [intervalRef] holds.
    (It also stops the tracks of the stream and closes the socket, see
    [Ws.cleanup].) *)
Definition unmount (w : World) : World :=
  {| session := session w; pipeline := pipeline w;
     timers := match intervalRef (session w) with
               | Some h => clearInterval h (timers w)
               | None => timers w
               end;
     nextHandle := nextHandle w; inFlight := inFlight w;
     detectCalls := detectCalls w; toasts := toasts w; cursor := cursor w |}.

(** Line 535, [recognitionHistory.slice(0, 10)], the entries of the
    "Recent History" panel. *)
Definition recentHistory (p : Pipeline) : list RecognitionResult.t :=
  firstn 10 (recognitionHistory p).

(** [n] rounds of: start the camera, start recognition, stop the
    camera. *)
Fixpoint cameraCycles (n : nat) : list Event :=
  match n with
  | O => []
  | S n => StartCamera true :: ToggleRecognition :: StopCamera :: cameraCycles n
  end.

(** What every world reached through the buttons has. *)
Definition guarded (w : World) : Prop :=
  ~ In Camera_Required (toasts w) /\
  (isRecognitionActive (session w) = true ->
   isModelsLoaded (session w) = true) /\
  (forall h c, In (h, c) (timers w) -> Captured.isModelsLoaded c = true).

(** What every world has, whatever the events were: recognition is only
    active with the camera, an active recognition owns a live timer, and
    the handles in use are below the next handle. *)
Definition wellformed (w : World) : Prop :=
  (isRecognitionActive (session w) = true ->
   isCameraActive (session w) = true) /\
  (isRecognitionActive (session w) = true ->
   exists h c, intervalRef (session w) = Some h /\ In (h, c) (timers w)) /\
  (forall h c, In (h, c) (timers w) -> (h < nextHandle w)%nat).

(** ** The WebSocket connection *)

Module Ws.

Inductive Status := disconnected | connecting | connected.

(** [WebSocket.readyState] *)
Inductive ReadyState := CONNECTING | OPEN | CLOSING | CLOSED.

Definition is_closed (r : ReadyState) : bool :=
  match r with CLOSED => true | _ => false end.

Definition is_open (r : ReadyState) : bool :=
  match r with OPEN => true | _ => false end.

(** The state cell [wsStatus], the sockets constructed so far (socket [i]
    exists when [i < created]; [readyState i] is its state), the socket
    [wsRef.current] points to, and the number of [setTimeout] callbacks
    scheduled by [onclose] that have not fired yet. *)
Record t := mk {
  wsStatus : Status;
  created : nat;
  readyState : nat -> ReadyState;
  wsRef : option nat;
  pendingReconnects : nat
}.

Definition setReadyState (i : nat) (r : ReadyState) (f : nat -> ReadyState)
    : nat -> ReadyState :=
  fun j => if (j =? i)%nat then r else f j.

(** [wsRef.current?.readyState === WebSocket.OPEN] *)
Definition currentIsOpen (w : t) : bool :=
  match wsRef w with
  | Some i => is_open (readyState w i)
  | None => false
  end.

(** Lines 101-143.  [constructs] says whether [new WebSocket(...)]
    returns a socket (in state CONNECTING) or throws. *)
Definition connectWebSocket (constructs : bool) (w : t) : t :=
  if currentIsOpen w then w
  else if constructs then
    {| wsStatus := connecting;
       created := S (created w);
       readyState := setReadyState (created w) CONNECTING (readyState w);
       wsRef := Some (created w);
       pendingReconnects := pendingReconnects w |}
  else
    {| wsStatus := disconnected;
       created := created w;
       readyState := readyState w;
       wsRef := wsRef w;
       pendingReconnects := pendingReconnects w |}.

(** Lines 111-114, the [onopen] handler of socket [i]; the platform fires
    it when a connecting socket opens. *)
Definition onopen (i : nat) (w : t) : t :=
  if (i <? created w)%nat then
    match readyState w i with
    | CONNECTING =>
        {| wsStatus := connected;
           created := created w;
           readyState := setReadyState i OPEN (readyState w);
           wsRef := wsRef w;
           pendingReconnects := pendingReconnects w |}
    | _ => w
    end
  else w.

(** Lines 128-133, the [onclose] handler of socket [i]; the platform
    fires it once, when the socket reaches CLOSED.  The handler schedules
    [connectWebSocket] after 3000 ms. *)
Definition onclose (i : nat) (w : t) : t :=
  if (i <? created w)%nat then
    if is_closed (readyState w i) then w
    else
      {| wsStatus := disconnected;
         created := created w;
         readyState := setReadyState i CLOSED (readyState w);
         wsRef := wsRef w;
         pendingReconnects := S (pendingReconnects w) |}
  else w.

(** Lines 135-138, the [onerror] handler of socket [i]. *)
Definition onerror (i : nat) (w : t) : t :=
  if (i <? created w)%nat then
    {| wsStatus := disconnected;
       created := created w;
       readyState := readyState w;
       wsRef := wsRef w;
       pendingReconnects := pendingReconnects w |}
  else w.

(** The closing handshake of an open socket starts (the server sends a
    close frame): the platform moves the socket to CLOSING and calls no
    handler until the socket is closed. *)
Definition closing (i : nat) (w : t) : t :=
  if (i <? created w)%nat then
    match readyState w i with
    | OPEN =>
        {| wsStatus := wsStatus w;
           created := created w;
           readyState := setReadyState i CLOSING (readyState w);
           wsRef := wsRef w;
           pendingReconnects := pendingReconnects w |}
    | _ => w
    end
  else w.

(** Lines 116-126, the [onmessage] handler: it parses and logs. *)
Definition onmessage (i : nat) (data : string) (w : t) : t := w.

(** A scheduled reconnect fires. *)
Definition reconnect (constructs : bool) (w : t) : t :=
  match pendingReconnects w with
  | O => w
  | S n =>
      connectWebSocket constructs
        {| wsStatus := wsStatus w;
           created := created w;
           readyState := readyState w;
           wsRef := wsRef w;
           pendingReconnects := n |}
  end.

(** Lines 359-361 of the unmount cleanup: [wsRef.current.close()] puts a
    socket that is connecting or open into CLOSING; its [onclose] fires
    later. *)
Definition cleanup (w : t) : t :=
  match wsRef w with
  | Some i =>
      match readyState w i with
      | CONNECTING | OPEN =>
          {| wsStatus := wsStatus w;
             created := created w;
             readyState := setReadyState i CLOSING (readyState w);
             wsRef := wsRef w;
             pendingReconnects := pendingReconnects w |}
      | _ => w
      end
  | None => w
  end.

Inductive Event :=
| Opened (i : nat)
| Closed (i : nat)
| Errored (i : nat)
| Message (i : nat) (data : string)
| TimeoutFired (constructs : bool)
| ClosingStarted (i : nat).

Definition step (e : Event) (w : t) : t :=
  match e with
  | Opened i => onopen i w
  | Closed i => onclose i w
  | Errored i => onerror i w
  | Message i data => onmessage i data w
  | TimeoutFired constructs => reconnect constructs w
  | ClosingStarted i => closing i w
  end.

Definition run (events : list Event) (w : t) : t :=
  fold_left (fun w e => step e w) events w.

(** The connection after the mount effect (line 350) has called
    [connectWebSocket]. *)
Definition mount (constructs : bool) : t :=
  connectWebSocket constructs
    {| wsStatus := disconnected; created := 0;
       readyState := fun _ => CLOSED; wsRef := None;
       pendingReconnects := 0 |}.

(** What holds of the connection while the component is mounted. *)
Definition coherent (w : t) : Prop :=
  (forall i, wsRef w = Some i -> (i < created w)%nat) /\
  (forall j, (j < created w)%nat -> wsRef w <> Some j ->
             readyState w j = CLOSED) /\
  (pendingReconnects w <= 1)%nat /\
  (pendingReconnects w = 1%nat ->
   forall i, wsRef w = Some i -> readyState w i = CLOSED) /\
  (wsStatus w = connected ->
   exists i, wsRef w = Some i /\
             (readyState w i = OPEN \/ readyState w i = CLOSING)) /\
  (wsStatus w = connecting ->
   exists i, wsRef w = Some i /\ readyState w i = CONNECTING).

End Ws.

(** * Properties *)

(** ** Comparisons on rationals *)

Lemma Qltb_true (a b : Q) : Qltb a b = true <-> (a < b)%Q.
Proof.
  unfold Qltb. rewrite negb_true_iff. split; intro H.
  - apply Qnot_le_lt. intro L. apply Qle_bool_iff in L. congruence.
  - destruct (Qle_bool b a) eqn:E; [|reflexivity].
    apply Qle_bool_iff in E. exfalso. exact (Qlt_not_le _ _ H E).
Qed.

Lemma Qltb_false (a b : Q) : Qltb a b = false <-> (b <= a)%Q.
Proof.
  unfold Qltb. rewrite negb_false_iff. apply Qle_bool_iff.
Qed.

Lemma Qltb_spec (a b : Q) : BoolSpec (a < b)%Q (b <= a)%Q (Qltb a b).
Proof.
  destruct (Qltb a b) eqn:E; constructor.
  - now apply Qltb_true.
  - now apply Qltb_false.
Qed.

(** ** The scan of the gallery *)

Section Scan.
Local Open Scope Q_scope.

Lemma updateBest_improves best f d :
  improves best d ->
  updateBest best f d = Some (BestMatch.mk (FaceRegistration.name f) d).
Proof.
  intros [Ht Hb]. unfold updateBest.
  apply Qltb_true in Ht. rewrite Ht. simpl.
  destruct best as [b|]; [|reflexivity].
  apply Qltb_true in Hb. now rewrite Hb.
Qed.

Lemma updateBest_keeps best f d :
  ~ improves best d -> updateBest best f d = best.
Proof.
  intros N. unfold updateBest.
  destruct (Qltb_spec d threshold) as [Ht|Ht]; [|reflexivity]. simpl.
  destruct best as [b|].
  - destruct (Qltb_spec d (BestMatch.distance b)) as [Hb|Hb]; [|reflexivity].
    exfalso. apply N. now split.
  - exfalso. apply N. now split.
Qed.

Lemma improves_dec best d : {improves best d} + {~ improves best d}.
Proof.
  unfold improves.
  destruct (Qlt_le_dec d threshold) as [Ht|Ht].
  - destruct best as [b|].
    + destruct (Qlt_le_dec d (BestMatch.distance b)) as [Hb|Hb].
      * left. now split.
      * right. intros [_ H]. exact (Qlt_not_le _ _ H Hb).
    + left. now split.
  - right. intros [H _]. exact (Qlt_not_le _ _ H Ht).
Qed.

Lemma scanRegistered_cons f faces best tape k :
  scanRegistered (f :: faces) best tape k =
  scanRegistered faces (updateBest best f (dist tape k 0)) tape (S k).
Proof.
  simpl. unfold Rand.bind, mockDistance, Rand.bind, Rand.Math_random, Rand.ret, dist.
  now rewrite Nat.add_0_r.
Qed.

Lemma dist_shift tape k i : dist tape (S k) i = dist tape k (S i).
Proof. unfold dist. now rewrite Nat.add_succ_r. Qed.

(** One draw per registered face. *)
Lemma scanRegistered_cursor faces : forall best tape k,
  snd (scanRegistered faces best tape k) = (k + length faces)%nat.
Proof.
  induction faces as [|f faces IH]; intros best tape k.
  - simpl. now rewrite Nat.add_0_r.
  - rewrite scanRegistered_cons, IH. simpl. lia.
Qed.

(** What the loop leaves in [bestMatch]: either the value it started
    with, when no drawn distance improves on it, or the first face, in
    gallery order, at which the least drawn distance occurs. *)
Lemma scanRegistered_inv faces : forall best tape k,
  let r := Rand.eval (scanRegistered faces best) tape k in
  (r = best /\
   forall i, (i < length faces)%nat -> ~ improves best (dist tape k i))
  \/
  (exists i f,
     nth_error faces i = Some f /\
     r = Some (BestMatch.mk (FaceRegistration.name f) (dist tape k i)) /\
     improves best (dist tape k i) /\
     (forall j, (j < length faces)%nat -> dist tape k i <= dist tape k j) /\
     (forall j, (j < i)%nat -> dist tape k i < dist tape k j)).
Proof.
  unfold Rand.eval.
  induction faces as [|f faces IH]; intros best tape k.
  - left. split; [reflexivity|]. simpl. intros i Hi. lia.
  - rewrite scanRegistered_cons.
    destruct (improves_dec best (dist tape k 0)) as [Hd|Hd].
    + rewrite (updateBest_improves f Hd).
      destruct (IH (Some (BestMatch.mk (FaceRegistration.name f) (dist tape k 0)))
                  tape (S k))
        as [[Hr Hall]|(i & g & Hn & Hr & [Ht Hb] & Hmin & Hfirst)].
      * right. exists 0%nat, f. repeat split; try assumption; try apply Hd.
        -- intros [|j] Hj; [apply Qle_refl|].
           simpl in Hj. assert (Hj' : (j < length faces)%nat) by lia.
           specialize (Hall j Hj'). rewrite dist_shift in Hall.
           unfold improves in Hall. simpl in Hall.
           destruct Hd as [Hd _].
           destruct (Qlt_le_dec (dist tape k (S j)) (dist tape k 0)) as [L|L];
             [|exact L].
           exfalso. apply Hall. split; [|exact L].
           eapply Qlt_trans; eassumption.
        -- intros j Hj. lia.
      * simpl in Hb. rewrite dist_shift in *.
        right. exists (S i), g. repeat split; try assumption.
        -- destruct best as [b|]; [|exact I].
           destruct Hd as [_ Hd]. eapply Qlt_trans; eassumption.
        -- intros [|j] Hj; [now apply Qlt_le_weak|].
           simpl in Hj. assert (Hj' : (j < length faces)%nat) by lia.
           specialize (Hmin j Hj'). now rewrite dist_shift in Hmin.
        -- intros [|j] Hj; [assumption|].
           assert (Hj' : (j < i)%nat) by lia.
           specialize (Hfirst j Hj'). now rewrite dist_shift in Hfirst.
    + rewrite (updateBest_keeps f Hd).
      destruct (IH best tape (S k))
        as [[Hr Hall]|(i & g & Hn & Hr & Himp & Hmin & Hfirst)].
      * left. split; [assumption|].
        intros [|i] Hi; [assumption|].
        simpl in Hi. assert (Hi' : (i < length faces)%nat) by lia.
        specialize (Hall i Hi'). now rewrite dist_shift in Hall.
      * rewrite dist_shift in *.
        assert (Hlt : dist tape k (S i) < dist tape k 0).
        { destruct Himp as [Ht Hb].
          destruct (Qlt_le_dec (dist tape k 0) threshold) as [L|L].
          - destruct best as [b|].
            + destruct (Qlt_le_dec (dist tape k 0) (BestMatch.distance b)) as [M|M].
              * exfalso. apply Hd. now split.
              * eapply Qlt_le_trans; eassumption.
            + exfalso. apply Hd. now split.
          - eapply Qlt_le_trans; eassumption. }
        right. exists (S i), g. repeat split; try assumption; try apply Himp.
        -- intros [|j] Hj; [now apply Qlt_le_weak|].
           simpl in Hj. assert (Hj' : (j < length faces)%nat) by lia.
           specialize (Hmin j Hj'). now rewrite dist_shift in Hmin.
        -- intros [|j] Hj; [assumption|].
           assert (Hj' : (j < i)%nat) by lia.
           specialize (Hfirst j Hj'). now rewrite dist_shift in Hfirst.
Qed.

End Scan.

(** ** One detection *)

Section Recognise.
Local Open Scope Q_scope.

Lemma recognise_run faces now detection tape k :
  recognise faces now detection tape k =
  (let best := Rand.eval (scanRegistered faces None) tape k in
   RecognitionResult.mk (tape (k + length faces)%nat) (nameOf best)
     (confidenceOf best) (box detection) now,
   S (k + length faces)).
Proof.
  unfold recognise, Rand.bind, Rand.eval.
  pose proof (scanRegistered_cursor faces None tape k) as Hc.
  destruct (scanRegistered faces None tape k) as [best k']. simpl in *.
  subst k'. reflexivity.
Qed.

Lemma scan_some faces tape k b :
  Rand.eval (scanRegistered faces None) tape k = Some b ->
  exists i f,
    nth_error faces i = Some f /\
    b = BestMatch.mk (FaceRegistration.name f) (dist tape k i) /\
    dist tape k i < threshold /\
    (forall j, (j < length faces)%nat -> dist tape k i <= dist tape k j) /\
    (forall j, (j < i)%nat -> dist tape k i < dist tape k j).
Proof.
  intro E.
  destruct (scanRegistered_inv faces None tape k)
    as [[Hr _]|(i & f & Hn & Hr & [Ht _] & Hmin & Hfirst)].
  - rewrite E in Hr. discriminate.
  - rewrite E in Hr. injection Hr as ->.
    exists i, f. repeat split; assumption.
Qed.

End Recognise.

(** ** The scan over the computed distances *)

Section Computed.
Local Open Scope Q_scope.

(** What the loop leaves in [bestMatch], in terms of the distances it
    was given: either the value it started with, when no distance
    improves on it, or the first face, in gallery order, at which the
    least distance occurs. *)
Lemma scanComputed_inv faces : forall ds best,
  length ds = length faces ->
  let r := scanComputed faces ds best in
  (r = best /\ forall d, In d ds -> ~ improves best d)
  \/
  (exists i f d,
     nth_error faces i = Some f /\ nth_error ds i = Some d /\
     r = Some (BestMatch.mk (FaceRegistration.name f) d) /\
     improves best d /\
     (forall e, In e ds -> d <= e) /\
     (forall j e, (j < i)%nat -> nth_error ds j = Some e -> d < e)).
Proof.
  induction faces as [|f faces IH]; intros [|d0 ds] best Hlen;
    try discriminate Hlen.
  - left. split; [reflexivity|]. intros d [].
  - injection Hlen as Hlen. simpl scanComputed.
    destruct (improves_dec best d0) as [Hd|Hd].
    + rewrite (updateBest_improves f Hd).
      destruct (IH ds (Some (BestMatch.mk (FaceRegistration.name f) d0)) Hlen)
        as [[Hr Hall]|(i & g & d & Hf & Hn & Hr & [Ht Hb] & Hmin & Hfirst)].
      * right. exists 0%nat, f, d0.
        split; [reflexivity|]. split; [reflexivity|]. split; [exact Hr|].
        split; [exact Hd|]. split.
        -- intros e [<-|He]; [apply Qle_refl|].
           destruct (Qlt_le_dec e d0) as [L|L]; [|exact L].
           exfalso. apply (Hall e He). split; [|exact L].
           destruct Hd as [Hd _]. eapply Qlt_trans; eassumption.
        -- intros j e Hj. lia.
      * simpl in Hb. right. exists (S i), g, d.
        split; [exact Hf|]. split; [exact Hn|]. split; [exact Hr|]. split.
        -- split; [exact Ht|]. destruct best as [b|]; [|exact I].
           destruct Hd as [_ Hd]. eapply Qlt_trans; eassumption.
        -- split.
           ++ intros e [<-|He]; [now apply Qlt_le_weak | now apply Hmin].
           ++ intros [|j] e Hj He.
              ** injection He as <-. exact Hb.
              ** apply (Hfirst j); [lia | exact He].
    + rewrite (updateBest_keeps f Hd).
      destruct (IH ds best Hlen)
        as [[Hr Hall]|(i & g & d & Hf & Hn & Hr & Himp & Hmin & Hfirst)].
      * left. split; [exact Hr|]. intros e [<-|He]; [exact Hd | now apply Hall].
      * assert (Hlt : d < d0).
        { destruct Himp as [Ht Hb].
          destruct (Qlt_le_dec d0 threshold) as [L|L].
          - destruct best as [b|].
            + destruct (Qlt_le_dec d0 (BestMatch.distance b)) as [M|M].
              * exfalso. apply Hd. now split.
              * eapply Qlt_le_trans; eassumption.
            + exfalso. apply Hd. now split.
          - eapply Qlt_le_trans; eassumption. }
        right. exists (S i), g, d.
        split; [exact Hf|]. split; [exact Hn|]. split; [exact Hr|].
        split; [exact Himp|]. split.
        -- intros e [<-|He]; [now apply Qlt_le_weak | now apply Hmin].
        -- intros [|j] e Hj He.
           ++ injection He as <-. exact Hlt.
           ++ apply (Hfirst j); [lia | exact He].
Qed.

Lemma scanComputed_none_iff faces ds :
  length ds = length faces ->
  (scanComputed faces ds None = None <->
   forall d, In d ds -> ~ d < threshold).
Proof.
  intro Hlen.
  destruct (scanComputed_inv faces ds None Hlen)
    as [[Hr Hall]|(i & f & d & _ & Hn & Hr & [Ht _] & _ & _)].
  - split; [|intros _; exact Hr].
    intros _ d Hd L. apply (Hall d Hd). now split.
  - split; [intro E; rewrite E in Hr; discriminate|].
    intro Hall. exfalso. apply (Hall d); [|exact Ht].
    now apply nth_error_In with i.
Qed.

(** A distance below the threshold yields a match: the first face at
    which the least distance occurs. *)
Lemma scanComputed_match faces ds :
  length ds = length faces ->
  (exists d, In d ds /\ d < threshold) ->
  exists i f d,
    nth_error faces i = Some f /\ nth_error ds i = Some d /\
    scanComputed faces ds None
    = Some (BestMatch.mk (FaceRegistration.name f) d) /\
    d < threshold /\
    (forall e, In e ds -> d <= e) /\
    (forall j e, (j < i)%nat -> nth_error ds j = Some e -> d < e).
Proof.
  intros Hlen (d0 & Hin & Hlt).
  destruct (scanComputed_inv faces ds None Hlen)
    as [[_ Hall]|(i & f & d & Hf & Hn & Hr & [Ht _] & Hmin & Hfirst)].
  - exfalso. apply (Hall d0 Hin). now split.
  - exists i, f, d. repeat split; assumption.
Qed.

Lemma computed_length tape k n : length (computed tape k n) = n.
Proof. unfold computed. now rewrite length_map, length_seq. Qed.

Lemma computed_succ tape k n :
  computed tape k (S n) = dist tape k 0 :: computed tape (S k) n.
Proof.
  unfold computed. simpl seq. simpl map. f_equal.
  rewrite <- seq_shift, map_map. apply map_ext. intro i.
  now rewrite Nat.add_succ_r.
Qed.

(** The scan of the pass is the scan of the distances [mockDistance]
    computed for it. *)
Lemma scanRegistered_computed faces : forall best tape k,
  Rand.eval (scanRegistered faces best) tape k
  = scanComputed faces (computed tape k (length faces)) best.
Proof.
  unfold Rand.eval.
  induction faces as [|f faces IH]; intros best tape k; [reflexivity|].
  rewrite scanRegistered_cons, IH.
  simpl length. rewrite computed_succ. reflexivity.
Qed.

(** The result of the pass for one detection is the record built from
    that scan. *)
Lemma recognise_computed faces now detection tape k :
  Rand.eval (recognise faces now detection) tape k
  = resultOf (scanComputed faces (computed tape k (length faces)) None)
      (tape (k + length faces)%nat) (box detection) now.
Proof.
  unfold Rand.eval at 1. rewrite recognise_run. simpl fst.
  now rewrite scanRegistered_computed.
Qed.

(** The confidence of a scan in terms of the least distance. *)
Lemma confidence_of_least faces ds m :
  length ds = length faces -> least m ds ->
  (m < threshold ->
   exists b, scanComputed faces ds None = Some b /\
             BestMatch.distance b == m) /\
  (threshold <= m -> scanComputed faces ds None = None).
Proof.
  intros Hlen [Hin Hmin]. split.
  - intro Hlt.
    destruct (scanComputed_match faces ds Hlen)
      as (i & f & d & _ & Hn & Hr & _ & Hd & _).
    { exists m. now split. }
    exists (BestMatch.mk (FaceRegistration.name f) d). split; [exact Hr|].
    simpl. apply Qle_antisym; [now apply Hd|].
    apply Hmin. now apply nth_error_In with i.
  - intro Hge. apply scanComputed_none_iff; [exact Hlen|].
    intros d Hd L. specialize (Hmin d Hd).
    assert (m < threshold) by (eapply Qle_lt_trans; eassumption).
    exact (Qlt_not_le _ _ H Hge).
Qed.

End Computed.

(** ** The comparator: distance, threshold, confidence *)

Section Comparator.
Local Open Scope Q_scope.

Lemma tape_half_unit : Rand.unit_interval tape_half.
Proof. intro n. unfold tape_half. split; lra. Defined.

(** C1, as stated, fails.  With the draws 1/2, 1/3, 1/4 the distance of
    an embedding to itself is 0.4, not 0; and three computations in a row,
    of (a,b), of (a,b) again and of (b,a), give three different values: the
    distance is neither repeatable nor symmetric. *)
Lemma distance_is_not_a_function_of_embeddings :
  let a := [1 # 10; 2 # 10] in
  let b := [3 # 10; 4 # 10] in
  ~ Rand.eval (distance a a) tape_harmonic 0 == 0 /\
  (let '(d1, d2, d3) := Rand.eval (distanceThrice a b) tape_harmonic 0 in
   ~ d1 == d2 /\ ~ d1 == d3).
Proof.
  vm_compute. repeat split; intro H; discriminate H.
Qed.

(** C1, amended.  The distance [processFrame] uses is 0.8 times the next
    draw of [Math.random()], whatever the two embeddings are: it consumes
    one draw, lies in [0, 0.8), is zero exactly when the draw is zero, and
    for one and the same draw it is the same for (a,b), (b,a) and (a,a). *)
Theorem distance_is_scaled_draw (tape : Rand.Tape) (k : nat) (a b : list Q) :
  Rand.unit_interval tape ->
  distance a b tape k = (tape k * (8 # 10), S k) /\
  distance a b tape k = distance b a tape k /\
  distance a b tape k = distance a a tape k /\
  0 <= Rand.eval (distance a b) tape k /\
  Rand.eval (distance a b) tape k < 8 # 10 /\
  (Rand.eval (distance a b) tape k == 0 <-> tape k == 0).
Proof.
  intro U. destruct (U k) as [H0 H1].
  unfold Rand.eval, distance, mockDistance, Rand.bind, Rand.Math_random,
    Rand.ret. simpl.
  repeat split; try reflexivity; try lra.
Qed.

Lemma distance_is_scaled_draw_witness :
  Rand.unit_interval tape_half /\
  distance [1 # 10] [3 # 10] tape_half 0%nat
  = (tape_half 0%nat * (8 # 10), 1%nat) /\
  distance [1 # 10] [3 # 10] tape_half 0%nat
  = distance [3 # 10] [1 # 10] tape_half 0%nat.
Proof.
  split; [exact tape_half_unit|].
  destruct (distance_is_scaled_draw 0%nat [1 # 10] [3 # 10] tape_half_unit)
    as (H1 & H2 & _).
  split; [exact H1 | exact H2].
Defined.

(** C2, as stated, fails: the threshold is not a configuration value.
    With a threshold of 0.3 configured and a single registered face at
    computed distance 0.4, no distance is below the configured threshold,
    yet the scan reports a match, because it compares with the literal
    0.6. *)
Lemma threshold_is_not_configurable :
  let configured := 3 # 10 in
  ~ (scanComputed [alice] [4 # 10] None = None <->
     forall d, In d [4 # 10] -> ~ d < configured).
Proof.
  intros configured [_ H].
  assert (E : scanComputed [alice] [4 # 10] None = None).
  { apply H. intros d [<-|[]]. unfold configured. lra. }
  vm_compute in E. discriminate E.
Qed.

(** C2, amended.  For every detection, [bestMatch] is null, and the
    result carries the name 'Unknown Person' and the confidence 0, if and
    only if none of the distances computed for the registered faces is
    below the threshold; the test is [distance < threshold], where the
    threshold is not configured but is the literal 0.6 of line 225 (as a
    double, a little below 6/10).  The scan of the pass is this scan of
    the distances [mockDistance] returned. *)
Theorem unmatched_iff_none_below_threshold
    (faces : list FaceRegistration.t) (ds : list Q)
    (id : Q) (b : Box) (now : Z) :
  length ds = length faces ->
  let best := scanComputed faces ds None in
  let r := resultOf best id b now in
  (best = None <-> forall d, In d ds -> ~ d < threshold) /\
  (threshold = 5404319552844595 # 9007199254740992 /\
   threshold < 6 # 10 /\
   forall d, Qltb d threshold = true <-> d < threshold) /\
  (best = None ->
   RecognitionResult.name r = "Unknown Person"%string /\
   RecognitionResult.confidence r = 0) /\
  (forall m, best = Some m ->
   RecognitionResult.name r = BestMatch.name m /\
   0 < RecognitionResult.confidence r) /\
  (forall tape k detection,
     Rand.eval (scanRegistered faces None) tape k
     = scanComputed faces (computed tape k (length faces)) None /\
     Rand.eval (recognise faces now detection) tape k
     = resultOf (scanComputed faces (computed tape k (length faces)) None)
         (tape (k + length faces)%nat) (box detection) now).
Proof.
  intros Hlen best r.
  split; [now apply scanComputed_none_iff|].
  split.
  { split; [reflexivity|]. split; [reflexivity|].
    intro d. apply Qltb_true. }
  split.
  { intro E. unfold r. rewrite E. split; reflexivity. }
  split.
  { intros m E. unfold r. rewrite E. simpl. split; [reflexivity|].
    destruct (scanComputed_inv faces ds None Hlen)
      as [[Hr _]|(i & f & d & _ & _ & Hr & [Ht _] & _ & _)];
      fold best in Hr; rewrite E in Hr; [discriminate|].
    injection Hr as ->. simpl. unfold threshold in Ht. lra. }
  intros tape k detection.
  split; [apply scanRegistered_computed | apply recognise_computed].
Qed.

Lemma unmatched_iff_none_below_threshold_witness :
  length [7 # 10; 13 # 20] = length [bob; alice] /\
  scanComputed [bob; alice] [7 # 10; 13 # 20] None = None.
Proof.
  assert (Hlen : length [7 # 10; 13 # 20] = length [bob; alice])
    by reflexivity.
  split; [exact Hlen|].
  destruct (@unmatched_iff_none_below_threshold [bob; alice]
              [7 # 10; 13 # 20] 0 (box face0) 0%Z Hlen) as [[_ H] _].
  apply H. intros d [<-|[<-|[]]]; unfold threshold; lra.
Defined.



End Comparator.

(** ** Confidence *)

Section Confidence.
Local Open Scope Q_scope.

(** C3, as stated, fails.  Against a gallery of one face, the distances
    0.65 and 0.7 are both at or above the threshold, so both results get
    confidence 0: the confidence is not strictly decreasing.  And no
    [distance_max] makes the code's confidence the clamp formula:
    agreeing at distance 0.3 (confidence 70) forces [distance_max = 1],
    and then the formula gives 30 at distance 0.7, where the code gives
    0. *)
Lemma confidence_is_not_the_clamp_formula :
  let code := fun d => confidenceOf (scanComputed [alice] [d] None) in
  (65 # 100 < 7 # 10 /\ ~ code (7 # 10) < code (65 # 100)) /\
  (forall distance_max,
     ~ (code (3 # 10) == confidence_spec distance_max (3 # 10) /\
        code (7 # 10) == confidence_spec distance_max (7 # 10))).
Proof.
  intro code. split.
  - split; [reflexivity|]. vm_compute. discriminate.
  - intros distance_max [H3 H7].
    assert (C3 : code (3 # 10) == 70) by (vm_compute; reflexivity).
    assert (C7 : code (7 # 10) == 0) by (vm_compute; reflexivity).
    rewrite C3 in H3. rewrite C7 in H7. clear C3 C7.
    unfold confidence_spec, clamp, Qdiv in *.
    set (u := / distance_max) in *. clearbody u.
    destruct (Qltb_spec ((1 - (3 # 10) * u) * 100) 0) as [A|A]; [lra|].
    destruct (Qltb_spec 100 ((1 - (3 # 10) * u) * 100)) as [B|B]; [lra|].
    destruct (Qltb_spec ((1 - (7 # 10) * u) * 100) 0) as [C|C]; [lra|].
    destruct (Qltb_spec 100 ((1 - (7 # 10) * u) * 100)) as [D|D]; lra.
Qed.

(** C3, amended.  The confidence of a result is computed from the scan:
    when the least of the computed distances is below the threshold 0.6
    it is [(1 - distance) * 100] for that distance, a value above 40 and
    at most 100, and otherwise it is 0; there is no clamp and no
    [distance_max].  It is non-increasing in the least distance (for two
    scans with least distances [0 <= m1 <= m2], the second confidence is
    at most the first), and it lies in [0,100]. *)
Theorem confidence_non_increasing
    (faces1 faces2 : list FaceRegistration.t) (ds1 ds2 : list Q)
    (m1 m2 : Q) :
  length ds1 = length faces1 -> length ds2 = length faces2 ->
  least m1 ds1 -> least m2 ds2 ->
  0 <= m1 -> m1 <= m2 ->
  let c1 := confidenceOf (scanComputed faces1 ds1 None) in
  let c2 := confidenceOf (scanComputed faces2 ds2 None) in
  c2 <= c1 /\
  (0 <= c1 /\ c1 <= 100) /\
  (0 <= c2 /\ c2 <= 100) /\
  (m1 < threshold -> c1 == (1 - m1) * 100 /\ 40 < c1) /\
  (threshold <= m1 -> c1 = 0).
Proof.
  intros Hl1 Hl2 L1 L2 H0 H12 c1 c2.
  destruct (@confidence_of_least faces1 ds1 m1 Hl1 L1) as [S1 N1].
  destruct (@confidence_of_least faces2 ds2 m2 Hl2 L2) as [S2 N2].
  assert (E1 : (m1 < threshold -> c1 == (1 - m1) * 100) /\
               (threshold <= m1 -> c1 = 0)).
  { split; intro H.
    - destruct (S1 H) as (b & Hb & Hd). unfold c1. rewrite Hb. simpl.
      now rewrite Hd.
    - unfold c1. now rewrite (N1 H). }
  assert (E2 : (m2 < threshold -> c2 == (1 - m2) * 100) /\
               (threshold <= m2 -> c2 = 0)).
  { split; intro H.
    - destruct (S2 H) as (b & Hb & Hd). unfold c2. rewrite Hb. simpl.
      now rewrite Hd.
    - unfold c2. now rewrite (N2 H). }
  clearbody c1 c2. destruct E1 as [A1 B1]. destruct E2 as [A2 B2].
  unfold threshold in *.
  destruct (Qlt_le_dec m1 (5404319552844595 # 9007199254740992)) as [P1|P1];
    destruct (Qlt_le_dec m2 (5404319552844595 # 9007199254740992)) as [P2|P2].
  - specialize (A1 P1). specialize (A2 P2).
    repeat split; try lra; intros; lra.
  - specialize (A1 P1). rewrite (B2 P2).
    repeat split; try lra; intros; lra.
  - exfalso. lra.
  - rewrite (B1 P1), (B2 P2).
    repeat split; try lra; intros; try reflexivity; lra.
Qed.

Lemma confidence_non_increasing_witness :
  length [2 # 10] = length [alice] /\ length [4 # 10] = length [alice] /\
  least (2 # 10) [2 # 10] /\ least (4 # 10) [4 # 10] /\
  0 <= 2 # 10 /\ 2 # 10 <= 4 # 10 /\
  confidenceOf (scanComputed [alice] [4 # 10] None)
  <= confidenceOf (scanComputed [alice] [2 # 10] None).
Proof.
  assert (L1 : least (2 # 10) [2 # 10]).
  { split; [now left|]. intros d [<-|[]]. lra. }
  assert (L2 : least (4 # 10) [4 # 10]).
  { split; [now left|]. intros d [<-|[]]. lra. }
  assert (H0 : 0 <= 2 # 10) by lra.
  assert (H12 : 2 # 10 <= 4 # 10) by lra.
  repeat (split; [first [reflexivity | assumption]|]).
  destruct (@confidence_non_increasing [alice] [alice] [2 # 10] [4 # 10]
              (2 # 10) (4 # 10) eq_refl eq_refl L1 L2 H0 H12) as [H _].
  exact H.
Defined.

End Confidence.

(** ** Nearest registered face *)

Section Nearest.
Local Open Scope Q_scope.

(** The outcome of the scan depends on the draws only. *)
Lemma scanRegistered_same_draws faces : forall best tape k tape' k',
  (forall i, (i < length faces)%nat -> tape' (k' + i)%nat = tape (k + i)%nat) ->
  Rand.eval (scanRegistered faces best) tape' k' =
  Rand.eval (scanRegistered faces best) tape k.
Proof.
  unfold Rand.eval.
  induction faces as [|f faces IH]; intros best tape k tape' k' H.
  - reflexivity.
  - rewrite !scanRegistered_cons.
    assert (E : dist tape' k' 0 = dist tape k 0).
    { unfold dist. rewrite (H 0%nat); [reflexivity | simpl; lia]. }
    rewrite E. apply IH. intros i Hi.
    specialize (H (S i)). simpl in H.
    rewrite !Nat.add_succ_r in H. apply H. lia.
Qed.

(** C4, as stated, fails.  The gallery is in the store's order, newest
    first: Bob (enrolled in February), then Alice (enrolled in January).
    Both draw the distance 0.4.  The scan keeps Bob, the later enrolment,
    where the claim asks for the earliest.  And a second scan of the same
    gallery, drawing 0.4 and 0.2, returns Alice: repeated calls do not
    resolve to the same identity. *)
Lemma tie_resolves_to_newest_enrolment :
  let gallery := [bob; alice] in
  newest_first gallery = true /\
  String.ltb (FaceRegistration.created_at alice)
             (FaceRegistration.created_at bob) = true /\
  dist tape_half 0 0 == dist tape_half 0 1 /\
  option_map BestMatch.name
    (Rand.eval (scanRegistered gallery None) tape_half 0) = Some "Bob"%string /\
  (let (b1, b2) := Rand.eval (scanTwice gallery) tape_dip 0 in
   option_map BestMatch.name b1 = Some "Bob"%string /\
   option_map BestMatch.name b2 = Some "Alice"%string).
Proof.
  vm_compute. repeat split; reflexivity.
Qed.

(** C4, amended.  Over the distances computed for the registered
    faces: when one of them is below 0.6, the scan returns a match, and
    it is the first face, in gallery order, at which the least distance
    occurs (ties go to the earlier position in the list, which the store
    orders newest first; neither [created_at] nor [id] is compared);
    when none is, and in particular on an empty gallery, there is no
    match and no distance is reported.  The scan of the pass is this scan
    of the distances [mockDistance] returned, so scans that draw the same
    distances return the same face. *)
Theorem nearest_is_first_minimum
    (faces : list FaceRegistration.t) (ds : list Q) :
  length ds = length faces ->
  let best := scanComputed faces ds None in
  (faces = [] -> best = None) /\
  ((forall d, In d ds -> ~ d < threshold) -> best = None) /\
  ((exists d, In d ds /\ d < threshold) ->
   exists i f d,
     nth_error faces i = Some f /\ nth_error ds i = Some d /\
     best = Some (BestMatch.mk (FaceRegistration.name f) d) /\
     d < threshold /\
     (forall e, In e ds -> d <= e) /\
     (forall j e, (j < i)%nat -> nth_error ds j = Some e -> d < e)) /\
  (forall tape k,
     Rand.eval (scanRegistered faces None) tape k
     = scanComputed faces (computed tape k (length faces)) None) /\
  (forall tape k tape' k',
     (forall i, (i < length faces)%nat ->
        tape' (k' + i)%nat = tape (k + i)%nat) ->
     Rand.eval (scanRegistered faces None) tape' k'
     = Rand.eval (scanRegistered faces None) tape k).
Proof.
  intros Hlen best. split; [intros ->; reflexivity|]. split; [|split; [|split]].
  - intro Hall. now apply scanComputed_none_iff.
  - intro Hex. now apply scanComputed_match.
  - intros tape k. apply scanRegistered_computed.
  - intros tape k tape' k' H. now apply scanRegistered_same_draws.
Qed.

Lemma nearest_is_first_minimum_witness :
  length [4 # 10; 4 # 10] = length [bob; alice] /\
  exists i f d,
    nth_error [bob; alice] i = Some f /\
    scanComputed [bob; alice] [4 # 10; 4 # 10] None
    = Some (BestMatch.mk (FaceRegistration.name f) d).
Proof.
  assert (Hlen : length [4 # 10; 4 # 10] = length [bob; alice])
    by reflexivity.
  split; [exact Hlen|].
  destruct (@nearest_is_first_minimum [bob; alice] [4 # 10; 4 # 10] Hlen)
    as (_ & _ & H & _).
  destruct H as (i & f & d & Hf & _ & Hb & _).
  { exists (4 # 10). split; [now left | unfold threshold; lra]. }
  exists i, f, d. split; [exact Hf | exact Hb].
Defined.

End Nearest.

(** ** The pass over one frame *)

Section Frame.
Local Open Scope Q_scope.

Lemma matchDetections_cons faces now d ds tape k :
  matchDetections faces now (d :: ds) tape k =
  (Rand.eval (recognise faces now d) tape k
     :: Rand.eval (matchDetections faces now ds) tape (S (k + length faces)),
   snd (matchDetections faces now ds tape (S (k + length faces)))).
Proof.
  simpl. unfold Rand.bind at 1. unfold Rand.eval.
  rewrite recognise_run. unfold Rand.bind, Rand.ret.
  destruct (matchDetections faces now ds tape (S (k + length faces))).
  reflexivity.
Qed.

(** One result per detection, in the order of the detections. *)
Lemma matchDetections_length faces now ds : forall tape k,
  length (Rand.eval (matchDetections faces now ds) tape k) = length ds.
Proof.
  induction ds as [|d ds IH]; intros tape k.
  - reflexivity.
  - unfold Rand.eval at 1. rewrite matchDetections_cons. simpl.
    now rewrite IH.
Qed.

Lemma deliver_results results now p :
  recognitionResults (deliver results now p) = results.
Proof.
  unfold deliver, updateStatistics. simpl.
  destruct (1000 <=? now - lastFrameTimeRef p)%Z; reflexivity.
Qed.

Lemma deliver_history results now p :
  recognitionHistory (deliver results now p)
  = addToHistory results (recognitionHistory p).
Proof.
  unfold deliver, updateStatistics. simpl.
  destruct (1000 <=? now - lastFrameTimeRef p)%Z; reflexivity.
Qed.

Lemma processFrame_resume_faces c d ds now p tape k :
  Rand.eval (processFrame_resume c (Faces (d :: ds)) now p) tape k =
  deliver (Rand.eval (matchDetections (Captured.registeredFaces c) now (d :: ds))
             tape k) now p.
Proof.
  unfold Rand.eval, processFrame_resume.
  change (length (d :: ds) =? 0)%nat with false. cbv iota.
  unfold Rand.bind, Rand.ret.
  destruct (matchDetections (Captured.registeredFaces c) now (d :: ds) tape k).
  reflexivity.
Qed.


(** C5, as stated, fails.  In mid-session (one frame counted since time
    0, accuracy 50, frame rate 2), a frame without faces arrives at time
    5000, four seconds after the window was due.  The results are emptied,
    but no flush takes place: the frame is not counted, the frame rate
    stays 2, the window stays open, and the accuracy stays 50 instead of
    0.  A frame with one face at the same moment does flush, to a frame
    rate of 2 frames in 5 seconds. *)
Lemma empty_frame_skips_statistics :
  let c := recognising [alice] in
  let p' := Rand.eval (processFrame_resume c (Faces []) 5000 pipeline_mid)
              tape_half 0 in
  (1000 <= 5000 - lastFrameTimeRef pipeline_mid)%Z /\
  recognitionResults p' = [] /\
  ~ recognitionAccuracy (statistics p') == 0 /\
  recognitionAccuracy (statistics p') == 50 /\
  frameRate (statistics p') == 2 /\
  frameCountRef p' = 1%nat /\
  lastFrameTimeRef p' = 0%Z /\
  frameRate (statistics
    (Rand.eval (processFrame_resume c (Faces [face0]) 5000 pipeline_mid)
       tape_half 0)) == 4 # 10.
Proof.
  vm_compute. repeat split; try reflexivity; try discriminate.
Qed.

(** C5, amended.  A frame whose detection list is empty is not an error:
    the pass publishes an empty result list and sets [detectedFaces] to 0.
    It is not counted as a frame and triggers no flush: the frame counter,
    the window start, the frame rate, the accuracy, the lifetime counter
    and the history are left as they were, and no draw is consumed. *)
Theorem empty_frame_clears_results
    (c : Captured.t) (now : Z) (p : Pipeline) (tape : Rand.Tape) (k : nat) :
  let p' := Rand.eval (processFrame_resume c (Faces []) now p) tape k in
  recognitionResults p' = [] /\
  detectedFaces (statistics p') = 0%nat /\
  recognitionAccuracy (statistics p') = recognitionAccuracy (statistics p) /\
  frameRate (statistics p') = frameRate (statistics p) /\
  totalRecognitions (statistics p') = totalRecognitions (statistics p) /\
  frameCountRef p' = frameCountRef p /\
  lastFrameTimeRef p' = lastFrameTimeRef p /\
  recognitionHistory p' = recognitionHistory p /\
  snd (processFrame_resume c (Faces []) now p tape k) = k.
Proof.
  simpl. repeat split; reflexivity.
Qed.

End Frame.

(** ** Statistics *)

Section Flush.
Local Open Scope Q_scope.

Lemma ofNat_pos n : (0 < n)%nat -> 0 < ofNat n.
Proof.
  intro H. unfold ofNat. change 0 with (inject_Z 0).
  rewrite <- Zlt_Qlt. lia.
Qed.


Lemma runPasses_cons c outcome now rest p log tape k :
  runPasses ((c, outcome, now) :: rest) p log tape k
  = runPasses rest
      (Rand.eval (processFrame_resume c outcome now p) tape k)
      (Rand.eval (passResults c outcome now) tape k ++ log)
      tape (snd (processFrame_resume c outcome now p tape k)).
Proof.
  simpl. unfold Rand.eval at 2.
  destruct (processFrame_resume c outcome now p tape k). reflexivity.
Qed.




End Flush.

(** ** History *)

Section History.
Local Open Scope nat_scope.

Lemma firstn_app_firstn {A} (n : nat) (a b : list A) :
  firstn n (a ++ firstn n b) = firstn n (a ++ b).
Proof.
  rewrite !firstn_app, firstn_firstn.
  now replace (Nat.min (n - length a) n) with (n - length a) by lia.
Qed.

(** What a pass does to the history, in terms of the results its loop
    computed. *)
Lemma pass_history c outcome now p tape k :
  length (recognitionHistory p) <= 100 ->
  recognitionHistory (Rand.eval (processFrame_resume c outcome now p) tape k)
  = addToHistory (Rand.eval (passResults c outcome now) tape k)
      (recognitionHistory p).
Proof.
  intros Hlen.
  assert (Hkeep : addToHistory [] (recognitionHistory p) = recognitionHistory p).
  { unfold addToHistory. rewrite app_nil_l. now apply firstn_all2. }
  destruct outcome as [[|d ds]|].
  - cbn -[addToHistory]. now rewrite Hkeep.
  - rewrite processFrame_resume_faces. now rewrite deliver_history.
  - cbn -[addToHistory]. now rewrite Hkeep.
Qed.

Lemma runPasses_history frames : forall p log tape k,
  recognitionHistory p = firstn 100 log ->
  recognitionHistory (fst (Rand.eval (runPasses frames p log) tape k))
  = firstn 100 (snd (Rand.eval (runPasses frames p log) tape k)).
Proof.
  induction frames as [|[[c outcome] now] frames IH]; intros p log tape k Hinv.
  - exact Hinv.
  - unfold Rand.eval at 1 2. rewrite runPasses_cons. apply IH.
    rewrite pass_history.
    + unfold addToHistory. rewrite Hinv. apply firstn_app_firstn.
    + rewrite Hinv. apply firstn_le_length.
Qed.

(** C8, as stated, fails: what the history holds is per-face results,
    not frame results.  After 51 frames of two faces each, far fewer than
    100 frames, the history is full (100 entries) and nothing of the
    first frame is left in it, although the passes computed results for
    it.  And one frame of 101 faces is itself cut to 100 entries. *)
Lemma history_holds_faces_not_frames :
  (let '(p, log) :=
     Rand.eval (runPasses fiftyOneFrames (pipeline (mount true 0)) [])
       tape_half 0 in
   let ofFirstFrame :=
     fun r => Qeq_bool (width (RecognitionResult.box r)) (width (box corner)) in
   length fiftyOneFrames = 51 /\
   existsb ofFirstFrame log = true /\
   length (recognitionHistory p) = 100 /\
   existsb ofFirstFrame (recognitionHistory p) = false) /\
  (let '(p, log) :=
     Rand.eval (runPasses crowdedFrame (pipeline (mount true 0)) [])
       tape_half 0 in
   length crowdedFrame = 1 /\
   length log = 101 /\
   length (recognitionHistory p) = 100).
Proof.
  vm_compute. repeat split; reflexivity.
Qed.

(** C8, amended.  After every run of passes from the mounted component,
    the history holds the most recent 100 per-face results, newest pass
    first and in detection order within a pass: it is the first 100
    entries of everything the passes computed, all of it while fewer than
    100 results have been computed.  A frame takes one entry per face, a
    frame without faces none, and a frame of more than 100 faces is cut
    to its first 100. *)
Theorem history_keeps_latest_100
    (frames : list (Captured.t * Detected * Z)) (ctx : bool) (t0 : Z)
    (tape : Rand.Tape) (k : nat) :
  let '(p, log) :=
    Rand.eval (runPasses frames (pipeline (mount ctx t0)) []) tape k in
  recognitionHistory p = firstn 100 log /\
  length (recognitionHistory p) = Nat.min 100 (length log) /\
  (forall i, i < 100 -> nth_error (recognitionHistory p) i = nth_error log i).
Proof.
  pose proof (@runPasses_history frames (pipeline (mount ctx t0)) []
                tape k eq_refl) as H.
  destruct (Rand.eval (runPasses frames (pipeline (mount ctx t0)) [])
              tape k) as [p log].
  cbn [fst snd] in H. split; [exact H|]. rewrite H. split.
  - apply length_firstn.
  - intros i Hi. rewrite nth_error_firstn.
    apply Nat.ltb_lt in Hi. now rewrite Hi.
Qed.

End History.

(** ** The scheduler *)

Section Scheduler.
Local Open Scope nat_scope.

Lemma mount_quiet ctx t0 : quiet (mount ctx t0).
Proof.
  repeat split. intros h c [].
Qed.

(** [toggleRecognition] hands [setInterval] the [processFrame] of a
    render in which recognition is not active: it only reaches line 323
    when its own [isRecognitionActive] is false, and both closures belong
    to the same render. *)
Lemma toggleRecognition_quiet w : quiet w -> quiet (toggleRecognition w).
Proof.
  intros (Ht & Hf & Hc). unfold toggleRecognition.
  destruct (isRecognitionActive (session w)) eqn:Ha.
  - repeat split; simpl; try assumption.
    intros h c Hin. apply (Ht h).
    destruct (intervalRef (session w)); [|exact Hin].
    unfold clearInterval in Hin. now apply filter_In in Hin.
  - destruct (isCameraActive (session w)); simpl.
    + repeat split; simpl; try assumption.
      intros h c [E|Hin]; [|now apply (Ht h)].
      injection E as _ <-. exact Ha.
    + repeat split; simpl; assumption.
Qed.

Lemma tick_quiet h w : quiet w -> tick h w = w.
Proof.
  intros (Ht & _ & _). unfold tick.
  destruct (find (fun t => fst t =? h) (timers w)) as [[h' c]|] eqn:E;
    [|reflexivity].
  apply find_some in E. destruct E as [Hin _].
  unfold processFrame_enters. rewrite (Ht h' c Hin).
  now rewrite andb_false_r.
Qed.

Lemma settle_quiet tape i outcome now w :
  quiet w -> settle tape i outcome now w = w.
Proof.
  intros (_ & Hf & _). unfold settle. rewrite Hf.
  now destruct i.
Qed.

Lemma step_quiet tape e w : quiet w -> quiet (step tape e w).
Proof.
  intro Q. destruct e as [ok|rows|granted| | |h|i outcome now]; simpl.
  - unfold loadModels. destruct ok; exact Q.
  - unfold loadRegisteredFaces. destruct rows; exact Q.
  - unfold startCamera. destruct granted; [|exact Q].
    destruct (videoRef (session w)); exact Q.
  - exact Q.
  - now apply toggleRecognition_quiet.
  - now rewrite tick_quiet.
  - now rewrite settle_quiet.
Qed.







(** C7.  A call of [toggleRecognition] that is a start (recognition is
    not active) in a session that is not camera-ready is rejected on the
    spot: the 'Camera Required' toast is shown, and the session flags,
    the interval handle, the timers, the pipeline and every other part of
    the state are exactly as before. *)
Theorem start_rejected_unless_camera_ready (w : World) :
  isRecognitionActive (session w) = false ->
  sessionState (session w) <> CameraReady ->
  let w' := toggleRecognition w in
  w' = withToast w Camera_Required /\
  toasts w' = Camera_Required :: toasts w /\
  session w' = session w /\
  pipeline w' = pipeline w /\
  timers w' = timers w /\
  nextHandle w' = nextHandle w /\
  inFlight w' = inFlight w /\
  detectCalls w' = detectCalls w /\
  cursor w' = cursor w.
Proof.
  intros Ha Hs w'. unfold w', toggleRecognition.
  unfold sessionState in Hs. rewrite Ha in *.
  destruct (isCameraActive (session w)); [congruence|].
  simpl. repeat split; reflexivity.
Qed.

Lemma start_rejected_unless_camera_ready_witness :
  isRecognitionActive (session (mount true 0)) = false /\
  sessionState (session (mount true 0)) <> CameraReady /\
  session (toggleRecognition (mount true 0)) = session (mount true 0).
Proof.
  assert (Ha : isRecognitionActive (session (mount true 0)) = false)
    by reflexivity.
  assert (Hs : sessionState (session (mount true 0)) <> CameraReady)
    by (vm_compute; discriminate).
  split; [exact Ha|]. split; [exact Hs|].
  destruct (start_rejected_unless_camera_ready (mount true 0) Ha Hs)
    as (_ & _ & H & _).
  exact H.
Defined.

End Scheduler.

(** ** The session over whole runs *)

Section Session.
Local Open Scope nat_scope.

Lemma toggleRecognition_wellformed w :
  wellformed w -> wellformed (toggleRecognition w).
Proof.
  intros (Hc & Hi & Hf). unfold toggleRecognition.
  destruct (isRecognitionActive (session w)) eqn:Ha.
  - split; [|split]; simpl; try discriminate.
    intros h c Hin. apply (Hf h c).
    destruct (intervalRef (session w)); [|exact Hin].
    unfold clearInterval in Hin. now apply filter_In in Hin.
  - destruct (isCameraActive (session w)) eqn:Hcam; simpl.
    + split; [|split]; simpl.
      * intros _. reflexivity.
      * intros _. exists (nextHandle w), (render (session w)).
        split; [reflexivity | now left].
      * intros h c [E|Hin].
        -- injection E as <- _. lia.
        -- specialize (Hf h c Hin). lia.
    + split; [|split]; simpl; try assumption;
        intro H; rewrite Ha in H; discriminate H.
Qed.

Lemma step_wellformed tape e w : wellformed w -> wellformed (step tape e w).
Proof.
  intros W. destruct e as [ok|rows|granted| | |h|i outcome now]; simpl.
  - unfold loadModels. destruct ok; exact W.
  - unfold loadRegisteredFaces. destruct rows; exact W.
  - unfold startCamera. destruct granted; [|exact W].
    destruct (videoRef (session w)); [|exact W].
    destruct W as (Hc & Hi & Hf). split; [|split]; simpl; auto.
  - destruct W as (Hc & Hi & Hf). split; [|split]; simpl; try discriminate.
    exact Hf.
  - now apply toggleRecognition_wellformed.
  - unfold tick.
    destruct (find (fun t => fst t =? h) (timers w)) as [[h' c]|]; [|exact W].
    destruct (processFrame_enters c (session w)); exact W.
  - unfold settle.
    destruct (nth_error (inFlight w) i) as [c|]; [|exact W].
    destruct (processFrame_resume c outcome now (pipeline w) tape (cursor w)).
    exact W.
Qed.

Lemma mount_wellformed ctx t0 : wellformed (mount ctx t0).
Proof.
  split; [|split]; simpl; try discriminate. intros h c [].
Qed.

Lemma run_wellformed tape events : forall w,
  wellformed w -> wellformed (run tape events w).
Proof.
  induction events as [|e events IH]; intros w W; [exact W|].
  simpl. apply IH. now apply step_wellformed.
Qed.

(** X1.  After any sequence of handler calls and runtime events, recognition
    is active only while the camera is active, and an active recognition
    owns a live timer whose handle is the one in [intervalRef]. *)
Theorem active_recognition_has_camera_and_interval
    (tape : Rand.Tape) (ctx : bool) (t0 : Z) (events : list Event) :
  let w := run tape events (mount ctx t0) in
  isRecognitionActive (session w) = true ->
  isCameraActive (session w) = true /\
  sessionState (session w) = Recognizing /\
  exists h c, intervalRef (session w) = Some h /\ In (h, c) (timers w).
Proof.
  intros w Ha.
  destruct (run_wellformed tape events (mount_wellformed ctx t0))
    as (Hc & Hi & _). fold w in Hc, Hi.
  split; [now apply Hc|]. split; [|now apply Hi].
  unfold sessionState. now rewrite (Hc Ha), Ha.
Qed.

Lemma active_recognition_has_camera_and_interval_witness :
  let w := run tape_half [StartCamera true; ToggleRecognition]
             (mount true 0) in
  isRecognitionActive (session w) = true /\
  isCameraActive (session w) = true.
Proof.
  intro w.
  assert (Ha : isRecognitionActive (session w) = true) by reflexivity.
  split; [exact Ha|].
  destruct (@active_recognition_has_camera_and_interval tape_half true 0%Z
              [StartCamera true; ToggleRecognition] Ha) as [H _].
  exact H.
Defined.

Lemma run_app tape e1 e2 w :
  run tape (e1 ++ e2) w = run tape e2 (run tape e1 w).
Proof. unfold run. apply fold_left_app. Qed.

Lemma cameraCycle_leaks tape w :
  videoRef (session w) = true ->
  isCameraActive (session w) = false ->
  isRecognitionActive (session w) = false ->
  let w' := run tape [StartCamera true; ToggleRecognition; StopCamera] w in
  videoRef (session w') = true /\
  isCameraActive (session w') = false /\
  isRecognitionActive (session w') = false /\
  timers w' = (nextHandle w, render (session (startCamera true w))) :: timers w.
Proof.
  intros Hv Hc Ha. simpl.
  unfold startCamera. rewrite Hv.
  unfold toggleRecognition. simpl. rewrite Ha. simpl.
  repeat split; try assumption; reflexivity.
Qed.

Lemma cameraCycles_run tape : forall n w,
  videoRef (session w) = true ->
  isCameraActive (session w) = false ->
  isRecognitionActive (session w) = false ->
  let w' := run tape (cameraCycles n) w in
  videoRef (session w') = true /\
  isCameraActive (session w') = false /\
  isRecognitionActive (session w') = false /\
  length (timers w') = length (timers w) + n.
Proof.
  induction n as [|n IH]; intros w Hv Hc Ha.
  - simpl. repeat split; try assumption. lia.
  - change (cameraCycles (S n))
      with ([StartCamera true; ToggleRecognition; StopCamera]
              ++ cameraCycles n).
    rewrite run_app.
    destruct (cameraCycle_leaks tape w Hv Hc Ha) as (Hv' & Hc' & Ha' & Ht).
    destruct (IH _ Hv' Hc' Ha') as (Hv2 & Hc2 & Ha2 & Hl).
    repeat split; try assumption.
    rewrite Hl, Ht. simpl. lia.
Qed.

(** X2.  [stopCamera] does not clear the interval: after [n] rounds of
    starting the camera, starting recognition and stopping the camera,
    the session is idle and [n] timers are still live. *)
Theorem stopCamera_leaves_the_interval_running
    (tape : Rand.Tape) (ctx : bool) (t0 : Z) (n : nat) :
  let w := run tape (cameraCycles n) (mount ctx t0) in
  sessionState (session w) = Idle /\
  isRecognitionActive (session w) = false /\
  length (timers w) = n.
Proof.
  intro w.
  destruct (cameraCycles_run tape n (mount ctx t0) eq_refl eq_refl eq_refl)
    as (_ & Hc & Ha & Hl).
  fold w in Hc, Ha, Hl.
  split; [unfold sessionState; now rewrite Hc|].
  split; [exact Ha|]. rewrite Hl. reflexivity.
Qed.

Lemma clearInterval_absent h ts :
  (forall h' c', In (h', c') ts -> h' < h) -> clearInterval h ts = ts.
Proof.
  intro Hf. unfold clearInterval.
  induction ts as [|[h' c'] ts IH]; [reflexivity|].
  simpl. assert (Hlt : h' < h) by (apply (Hf h' c'); now left).
  apply Nat.lt_neq in Hlt. apply Nat.eqb_neq in Hlt. rewrite Hlt. simpl.
  f_equal. apply IH. intros h2 c2 Hin. apply (Hf h2 c2). now right.
Qed.

Lemma clearInterval_fresh h c ts :
  (forall h' c', In (h', c') ts -> h' < h) ->
  clearInterval h ((h, c) :: ts) = ts.
Proof.
  intro Hf. unfold clearInterval. simpl. rewrite Nat.eqb_refl. simpl.
  now apply clearInterval_absent.
Qed.

Lemma cameraCycles_snoc n :
  cameraCycles (S n)
  = cameraCycles n ++ [StartCamera true; ToggleRecognition; StopCamera].
Proof.
  induction n as [|n IH]; [reflexivity|].
  change (cameraCycles (S (S n)))
    with (StartCamera true :: ToggleRecognition :: StopCamera
            :: cameraCycles (S n)).
  rewrite IH at 1. reflexivity.
Qed.

(** X3.  The unmount cleanup clears only the interval [intervalRef] points
    to: after [n + 1] rounds of starting the camera, starting recognition
    and stopping the camera, unmounting leaves [n] timers live. *)
Theorem unmount_clears_only_the_last_interval
    (tape : Rand.Tape) (ctx : bool) (t0 : Z) (n : nat) :
  length (timers (unmount (run tape (cameraCycles (S n)) (mount ctx t0)))) = n.
Proof.
  rewrite cameraCycles_snoc, run_app.
  set (w := run tape (cameraCycles n) (mount ctx t0)).
  destruct (cameraCycles_run tape n (mount ctx t0) eq_refl eq_refl eq_refl)
    as (Hv & Hc & Ha & Hl). fold w in Hv, Hc, Ha, Hl.
  destruct (run_wellformed tape (cameraCycles n) (mount_wellformed ctx t0))
    as (_ & _ & Hf). fold w in Hf.
  clearbody w. simpl in Hl.
  unfold unmount. simpl. unfold startCamera. rewrite Hv.
  unfold toggleRecognition. simpl. rewrite Ha. simpl.
  rewrite Nat.eqb_refl. simpl.
  rewrite clearInterval_absent by exact Hf. exact Hl.
Qed.

(** X4.  Starting and then stopping recognition clears exactly the timer the
    start registered: from any reachable camera-ready world the two calls
    leave the timers as they were, recognition inactive, the camera
    active, the handle reference empty and the pipeline untouched. *)
Theorem start_then_stop_clears_its_timer
    (tape : Rand.Tape) (ctx : bool) (t0 : Z) (events : list Event) :
  let w := run tape events (mount ctx t0) in
  sessionState (session w) = CameraReady ->
  let w2 := toggleRecognition (toggleRecognition w) in
  timers w2 = timers w /\
  sessionState (session w2) = CameraReady /\
  intervalRef (session w2) = None /\
  nextHandle w2 = S (nextHandle w) /\
  pipeline w2 = pipeline w /\
  toasts w2 = toasts w.
Proof.
  intros w Hs w2.
  destruct (run_wellformed tape events (mount_wellformed ctx t0))
    as (_ & _ & Hf). fold w in Hf.
  unfold sessionState in Hs.
  destruct (isCameraActive (session w)) eqn:Hc; [|discriminate].
  destruct (isRecognitionActive (session w)) eqn:Ha; [discriminate|].
  unfold w2. clearbody w. clear w2.
  assert (E : toggleRecognition w =
              {| session :=
                   {| isRecognitionActive := true;
                      isCameraActive := true;
                      isModelsLoaded := isModelsLoaded (session w);
                      registeredFaces := registeredFaces (session w);
                      videoRef := videoRef (session w);
                      canvasRef := canvasRef (session w);
                      context2d := context2d (session w);
                      streamRef := streamRef (session w);
                      intervalRef := Some (nextHandle w) |};
                 pipeline := pipeline w;
                 timers := (nextHandle w, render (session w)) :: timers w;
                 nextHandle := S (nextHandle w); inFlight := inFlight w;
                 detectCalls := detectCalls w; toasts := toasts w;
                 cursor := cursor w |}).
  { unfold toggleRecognition. rewrite Ha, Hc. reflexivity. }
  rewrite E. unfold toggleRecognition, sessionState. simpl.
  repeat split; try reflexivity.
  now apply clearInterval_fresh.
Qed.

Lemma start_then_stop_clears_its_timer_witness :
  let w := run tape_half [StartCamera true] (mount true 0) in
  sessionState (session w) = CameraReady /\
  timers (toggleRecognition (toggleRecognition w)) = timers w.
Proof.
  intro w.
  assert (Hs : sessionState (session w) = CameraReady) by reflexivity.
  split; [exact Hs|].
  destruct (@start_then_stop_clears_its_timer tape_half true 0%Z
              [StartCamera true] Hs) as [H _].
  exact H.
Defined.

(** X5.  In the mounted component no recognition result is ever published:
    after any sequence of handler calls, timer firings and detector
    completions the results, the history, the statistics, the frame
    counter and the window start are those of the first render, and no
    draw has been consumed.  (Every timer callback is a closure of a
    render with recognition inactive, so no pass gets past line 189.) *)
Theorem mounted_component_publishes_nothing
    (tape : Rand.Tape) (ctx : bool) (t0 : Z) (events : list Event) :
  let w := run tape events (mount ctx t0) in
  pipeline w = pipeline (mount ctx t0) /\
  recognitionResults (pipeline w) = [] /\
  recognitionHistory (pipeline w) = [] /\
  totalRecognitions (statistics (pipeline w)) = 0 /\
  cursor w = 0.
Proof.
  assert (G : forall events w,
             quiet w -> pipeline (run tape events w) = pipeline w /\
                        cursor (run tape events w) = cursor w).
  { clear events. induction events as [|e events IH]; intros w Q.
    - split; reflexivity.
    - simpl. destruct (IH (step tape e w) (step_quiet tape e Q)) as [Hp Hk].
      rewrite Hp, Hk. clear IH Hp Hk.
      destruct e as [ok|rows|granted| | |h|i outcome now]; simpl.
      + unfold loadModels. destruct ok; split; reflexivity.
      + unfold loadRegisteredFaces. destruct rows; split; reflexivity.
      + unfold startCamera. destruct granted; [|split; reflexivity].
        destruct (videoRef (session w)); split; reflexivity.
      + split; reflexivity.
      + unfold toggleRecognition.
        destruct (isRecognitionActive (session w)); [split; reflexivity|].
        destruct (isCameraActive (session w)); split; reflexivity.
      + rewrite (tick_quiet h Q). split; reflexivity.
      + rewrite (settle_quiet tape i outcome now Q). split; reflexivity. }
  intro w. destruct (G events (mount ctx t0) (mount_quiet ctx t0)) as [Hp Hk].
  fold w in Hp, Hk. rewrite Hp, Hk. repeat split; reflexivity.
Qed.

End Session.

(** ** The component driven through its buttons *)

Section Buttons.
Local Open Scope nat_scope.

Lemma withToast_guarded w t :
  t <> Camera_Required -> guarded w -> guarded (withToast w t).
Proof.
  intros Ht (Hn & Hm & Hc). split; [|split]; simpl; try assumption.
  intros [E|Hin]; [now apply Ht | now apply Hn].
Qed.

Lemma ui_step_guarded tape u w : guarded w -> guarded (ui_step tape u w).
Proof.
  intros G. pose proof G as (Hn & Hm & Hc).
  destruct u as [granted| |ok|rows|h|i outcome now]; simpl.
  - destruct (isCameraActive (session w)).
    + split; [|split]; simpl; try assumption. discriminate.
    + unfold startCamera. destruct granted.
      * destruct (videoRef (session w)); [|exact G].
        split; [|split]; simpl; assumption.
      * apply withToast_guarded; [discriminate | exact G].
  - unfold recognitionButtonDisabled.
    destruct (isCameraActive (session w)) eqn:Ecam; [|exact G].
    destruct (isModelsLoaded (session w)) eqn:Emod; [|exact G].
    simpl. unfold toggleRecognition. rewrite Ecam.
    destruct (isRecognitionActive (session w)) eqn:Ea; simpl.
    + split; [|split]; simpl; try assumption; try discriminate.
      intros h c Hin. apply (Hc h c).
      destruct (intervalRef (session w)); [|exact Hin].
      unfold clearInterval in Hin. now apply filter_In in Hin.
    + split; [|split]; simpl; try assumption.
      * intros _. exact Emod.
      * intros h c [E|Hin]; [|now apply (Hc h c)].
        injection E as _ <-. unfold render. simpl. exact Emod.
  - unfold loadModels. destruct ok.
    + split; [|split]; simpl; try assumption. reflexivity.
    + apply withToast_guarded; [discriminate | exact G].
  - unfold loadRegisteredFaces. destruct rows.
    + split; [|split]; simpl; assumption.
    + apply withToast_guarded; [discriminate | exact G].
  - unfold tick.
    destruct (find (fun t => fst t =? h) (timers w)) as [[h' c]|]; [|exact G].
    destruct (processFrame_enters c (session w)); exact G.
  - unfold settle.
    destruct (nth_error (inFlight w) i) as [c|]; [|exact G].
    destruct (processFrame_resume c outcome now (pipeline w) tape (cursor w)).
    exact G.
Qed.

(** X6.  When the component is driven through its buttons, the 'Camera
    Required' toast is never shown and recognition never starts before
    the models are loaded: the recognition button is disabled without a
    camera or without models, so the rejection of lines 313-320 is not
    reached and every timer callback was created with the models
    loaded. *)
Theorem buttons_never_reach_the_camera_check
    (tape : Rand.Tape) (ctx : bool) (t0 : Z) (events : list UiEvent) :
  let w := ui_run tape events (mount ctx t0) in
  ~ In Camera_Required (toasts w) /\
  (isRecognitionActive (session w) = true ->
   isModelsLoaded (session w) = true) /\
  (forall h c, In (h, c) (timers w) -> Captured.isModelsLoaded c = true).
Proof.
  assert (G : forall events w, guarded w -> guarded (ui_run tape events w)).
  { clear events. induction events as [|u events IH]; intros w H; [exact H|].
    simpl. apply IH. now apply ui_step_guarded. }
  apply G. split; [|split]; simpl.
  - intros [].
  - discriminate.
  - intros h c [].
Qed.

End Buttons.

(** ** The results of a pass *)

Section Results.
Local Open Scope Q_scope.

Lemma matchDetections_cursor faces now ds : forall tape k,
  snd (matchDetections faces now ds tape k)
  = (k + length ds * S (length faces))%nat.
Proof.
  induction ds as [|d ds IH]; intros tape k.
  - simpl. lia.
  - rewrite matchDetections_cons. simpl snd. rewrite IH. simpl. lia.
Qed.

(** The [i]-th result is the one [recognise] computes for the [i]-th
    detection, from the draws that follow those of the detections before
    it. *)
Lemma matchDetections_nth faces now ds : forall tape k i d,
  nth_error ds i = Some d ->
  nth_error (Rand.eval (matchDetections faces now ds) tape k) i
  = Some (Rand.eval (recognise faces now d) tape
            (k + i * S (length faces))%nat).
Proof.
  induction ds as [|d0 ds IH]; intros tape k i d Hn.
  - destruct i; discriminate.
  - unfold Rand.eval at 1. rewrite matchDetections_cons. simpl fst.
    destruct i as [|i].
    + injection Hn as <-. simpl. now rewrite Nat.add_0_r.
    + simpl in Hn. simpl nth_error. rewrite (IH _ _ _ _ Hn).
      do 2 f_equal. simpl. lia.
Qed.

Lemma matchDetections_In faces now ds tape k r :
  In r (Rand.eval (matchDetections faces now ds) tape k) ->
  exists d k', In d ds /\ r = Rand.eval (recognise faces now d) tape k'.
Proof.
  intro Hin. apply In_nth_error in Hin. destruct Hin as [i Hi].
  assert (Hlt : (i < length ds)%nat).
  { rewrite <- (matchDetections_length faces now ds tape k).
    apply nth_error_Some. now rewrite Hi. }
  destruct (nth_error ds i) as [d|] eqn:Hd.
  - rewrite (matchDetections_nth faces now ds tape k i Hd) in Hi.
    injection Hi as <-. exists d, (k + i * S (length faces))%nat.
    split; [now apply nth_error_In with i | reflexivity].
  - apply nth_error_None in Hd. lia.
Qed.

(** X7.  A pass yields one result per detection, in the order of the
    detections, each carrying the box of its detection; it consumes, per
    detection, one draw for every registered face and one more for the
    result's id. *)
Theorem results_follow_detections
    (faces : list FaceRegistration.t) (now : Z) (ds : list Detection)
    (tape : Rand.Tape) (k : nat) :
  let results := Rand.eval (matchDetections faces now ds) tape k in
  length results = length ds /\
  map RecognitionResult.box results = map box ds /\
  (forall i, (i < length ds)%nat ->
     option_map RecognitionResult.id (nth_error results i)
     = Some (tape (k + i * S (length faces) + length faces)%nat)) /\
  snd (matchDetections faces now ds tape k)
  = (k + length ds * S (length faces))%nat.
Proof.
  intro results.
  split; [apply matchDetections_length|]. split; [|split].
  - unfold results. clear results. revert k.
    induction ds as [|d ds IH]; intro k; [reflexivity|].
    unfold Rand.eval at 1. rewrite matchDetections_cons. simpl fst.
    simpl map. rewrite IH. f_equal.
    unfold Rand.eval. rewrite recognise_run. reflexivity.
  - intros i Hi.
    destruct (nth_error ds i) as [d|] eqn:Hd.
    + unfold results. rewrite (matchDetections_nth faces now ds tape k i Hd).
      unfold Rand.eval. rewrite recognise_run. reflexivity.
    + apply nth_error_None in Hd. lia.
  - apply matchDetections_cursor.
Qed.

(** The two shapes of a result: no match, or the name of a registered
    face with a confidence above 40. *)
Lemma recognise_shape faces now d tape k :
  let r := Rand.eval (recognise faces now d) tape k in
  (RecognitionResult.name r = Unknown_Person /\
   RecognitionResult.confidence r = 0 /\
   Rand.eval (scanRegistered faces None) tape k = None)
  \/
  (exists f, In f faces /\
     RecognitionResult.name r = FaceRegistration.name f /\
     40 < RecognitionResult.confidence r).
Proof.
  intro r. unfold r, Rand.eval. rewrite recognise_run. simpl.
  destruct (Rand.eval (scanRegistered faces None) tape k) as [b|] eqn:Hb.
  - right. destruct (scan_some _ _ _ Hb) as (i & f & Hn & -> & Ht & _ & _).
    exists f. split; [now apply nth_error_In with i|].
    split; [reflexivity|]. simpl. unfold threshold in Ht. lra.
  - left. split; [reflexivity|]. split; [reflexivity | exact Hb].
Qed.

(** X8.  The statistics tell matches from non-matches by the name.  When no
    registered face is named 'Unknown Person', a result counts as
    recognised exactly when it has a positive confidence, that is, when a
    registered face matched; without that proviso a recognised result
    still always has a positive confidence. *)
Theorem recognised_iff_positive_confidence
    (faces : list FaceRegistration.t) (now : Z) (ds : list Detection)
    (tape : Rand.Tape) (k : nat) :
  Forall (fun f => FaceRegistration.name f <> Unknown_Person) faces ->
  forall r, In r (Rand.eval (matchDetections faces now ds) tape k) ->
    (In r (recognised (Rand.eval (matchDetections faces now ds) tape k))
     <-> 0 < RecognitionResult.confidence r) /\
    (0 < RecognitionResult.confidence r ->
     40 < RecognitionResult.confidence r).
Proof.
  intros Hnames r Hin.
  destruct (matchDetections_In _ _ _ _ _ _ Hin) as (d & k' & _ & Hr).
  pose proof (recognise_shape faces now d tape k') as Hs.
  simpl in Hs. rewrite <- Hr in Hs.
  unfold recognised. rewrite filter_In.
  destruct Hs as [(Hn & Hc & _)|(f & Hf & Hn & Hc)].
  - rewrite Hn, Hc, String.eqb_refl. simpl.
    split; [split|]; [intros [_ H]; discriminate | intro H; lra | intro H; lra].
  - split; [|intros _; exact Hc]. split; [intros _; lra|].
    intros _. split; [exact Hin|].
    rewrite Hn. apply negb_true_iff. apply String.eqb_neq.
    rewrite Forall_forall in Hnames. now apply Hnames.
Qed.

Lemma recognised_iff_positive_confidence_witness :
  Forall (fun f => FaceRegistration.name f <> Unknown_Person) [alice] /\
  forall r,
    In r (Rand.eval (matchDetections [alice] 0 [face0; face1]) tape_miss 2) ->
    (0 < RecognitionResult.confidence r ->
     40 < RecognitionResult.confidence r).
Proof.
  assert (H : Forall (fun f => FaceRegistration.name f <> Unknown_Person)
                [alice]).
  { constructor; [discriminate | constructor]. }
  split; [exact H|].
  intros r Hin.
  destruct (@recognised_iff_positive_confidence [alice] 0%Z [face0; face1]
              tape_miss 2%nat H r Hin) as [_ H40].
  exact H40.
Defined.

End Results.

(** ** Statistics over whole runs *)

Section Runs.
Local Open Scope Q_scope.

Lemma ofNat_le m n : (m <= n)%nat -> ofNat m <= ofNat n.
Proof.
  intro H. unfold ofNat. rewrite <- Zle_Qle. lia.
Qed.

Lemma accuracyOf_range results :
  0 <= accuracyOf results /\ accuracyOf results <= 100.
Proof.
  unfold accuracyOf.
  destruct (Nat.ltb_spec 0 (length results)) as [Hn|Hn]; [|split; lra].
  pose proof (ofNat_pos Hn) as Hpos.
  pose proof (ofNat_le (filter_length_le
    (fun r => negb (String.eqb (RecognitionResult.name r) Unknown_Person))
    results)) as Hle.
  fold (recognised results) in Hle.
  assert (H0 : 0 <= ofNat (length (recognised results)) / ofNat (length results)).
  { apply Qle_shift_div_l; [exact Hpos|].
    rewrite Qmult_0_l. change 0 with (ofNat 0). apply ofNat_le. lia. }
  assert (H1 : ofNat (length (recognised results)) / ofNat (length results) <= 1).
  { apply Qle_shift_div_r; [exact Hpos|]. now rewrite Qmult_1_l. }
  split; lra.
Qed.

(** A property of the pipeline and the log that every pass preserves
    holds after every run of passes. *)
Lemma processFrames_invariant (P : Pipeline -> list RecognitionResult.t -> Prop) :
  (forall c outcome now p log tape k,
     P p log ->
     P (Rand.eval (processFrame_resume c outcome now p) tape k)
       (published outcome
          (Rand.eval (processFrame_resume c outcome now p) tape k) ++ log)) ->
  forall frames p log tape k,
    P p log ->
    P (fst (Rand.eval (processFrames frames p log) tape k))
      (snd (Rand.eval (processFrames frames p log) tape k)).
Proof.
  intros Hstep.
  induction frames as [|[[c outcome] now] frames IH]; intros p log tape k H.
  - exact H.
  - unfold Rand.eval. simpl processFrames. unfold Rand.bind.
    pose proof (Hstep c outcome now p log tape k H) as H1.
    unfold Rand.eval in H1.
    destruct (processFrame_resume c outcome now p tape k) as [p1 k1].
    simpl fst in H1. apply (IH p1 _ tape k1 H1).
Qed.

(** X10.  After any run of passes from the mounted component, the accuracy on
    display lies between 0 and 100 and the frame rate is not negative. *)
Theorem statistics_stay_in_range
    (frames : list (Captured.t * Detected * Z)) (ctx : bool) (t0 : Z)
    (tape : Rand.Tape) (k : nat) :
  let p := fst (Rand.eval (processFrames frames (pipeline (mount ctx t0)) [])
                  tape k) in
  0 <= recognitionAccuracy (statistics p) /\
  recognitionAccuracy (statistics p) <= 100 /\
  0 <= frameRate (statistics p).
Proof.
  apply (processFrames_invariant
           (fun p _ => 0 <= recognitionAccuracy (statistics p) /\
                       recognitionAccuracy (statistics p) <= 100 /\
                       0 <= frameRate (statistics p))).
  - intros c outcome now p log tape' k' (Ha0 & Ha1 & Hf).
    destruct outcome as [[|d ds]|].
    + cbn. repeat split; assumption.
    + rewrite processFrame_resume_faces.
      unfold deliver, updateStatistics.
      cbn [recognitionResults recognitionHistory statistics frameCountRef
           lastFrameTimeRef].
      destruct (Z.leb_spec 1000 (now - lastFrameTimeRef p)) as [Hd|Hd];
        cbn [recognitionResults recognitionHistory statistics frameCountRef
             lastFrameTimeRef frameRate recognitionAccuracy];
        [|repeat split; assumption].
      destruct (accuracyOf_range
                  (Rand.eval (matchDetections (Captured.registeredFaces c) now
                                (d :: ds)) tape' k')) as [A0 A1].
      repeat split; try assumption.
      apply Qle_shift_div_l.
      * change 0 with (inject_Z 0). rewrite <- Zlt_Qlt. lia.
      * rewrite Qmult_0_l. change 0 with (inject_Z 0).
        rewrite <- Zle_Qle. lia.
    + cbn. repeat split; assumption.
  - cbn. repeat split; lra.
Qed.

Lemma recognised_app a b : recognised (a ++ b) = recognised a ++ recognised b.
Proof. apply filter_app. Qed.

(** X11.  The lifetime counter [totalRecognitions] never exceeds the number of
    recognised results published: it is raised only by the frames that
    flush, each by its own recognised results. *)
Theorem totalRecognitions_undercounts
    (frames : list (Captured.t * Detected * Z)) (ctx : bool) (t0 : Z)
    (tape : Rand.Tape) (k : nat) :
  let run := Rand.eval (processFrames frames (pipeline (mount ctx t0)) [])
               tape k in
  (totalRecognitions (statistics (fst run))
   <= length (recognised (snd run)))%nat.
Proof.
  apply (processFrames_invariant
           (fun p log => (totalRecognitions (statistics p)
                          <= length (recognised log))%nat)).
  - intros c outcome now p log tape' k' H.
    destruct outcome as [[|d ds]|].
    + cbn. exact H.
    + unfold published. rewrite processFrame_resume_faces.
      rewrite deliver_results, recognised_app, length_app.
      unfold deliver, updateStatistics.
      cbn [recognitionResults recognitionHistory statistics frameCountRef
           lastFrameTimeRef].
      destruct (1000 <=? now - lastFrameTimeRef p)%Z;
        cbn [statistics totalRecognitions]; lia.
    + cbn. exact H.
  - cbn. lia.
Qed.

(** X9.  With an empty gallery every detection is reported as 'Unknown
    Person' with confidence 0, nothing is added to the lifetime counter,
    and a flush reports an accuracy of 0. *)
Theorem empty_gallery_recognises_nobody
    (c : Captured.t) (d : Detection) (ds : list Detection) (now : Z)
    (p : Pipeline) (tape : Rand.Tape) (k : nat) :
  Captured.registeredFaces c = [] ->
  let p' := Rand.eval (processFrame_resume c (Faces (d :: ds)) now p) tape k in
  length (recognitionResults p') = length (d :: ds) /\
  Forall (fun r => RecognitionResult.name r = "Unknown Person"%string /\
                   RecognitionResult.confidence r = 0)
         (recognitionResults p') /\
  totalRecognitions (statistics p') = totalRecognitions (statistics p) /\
  ((1000 <= now - lastFrameTimeRef p)%Z ->
   recognitionAccuracy (statistics p') == 0).
Proof.
  intros Hempty p'.
  assert (Hp : p' = deliver (Rand.eval (matchDetections [] now (d :: ds))
                               tape k) now p).
  { unfold p'. rewrite processFrame_resume_faces. now rewrite Hempty. }
  set (results := Rand.eval (matchDetections [] now (d :: ds)) tape k) in *.
  assert (Hall : Forall (fun r => RecognitionResult.name r = Unknown_Person /\
                                  RecognitionResult.confidence r = 0) results).
  { apply Forall_forall. intros r Hin.
    destruct (matchDetections_In _ _ _ _ _ _ Hin) as (d' & k' & _ & ->).
    unfold Rand.eval. rewrite recognise_run. split; reflexivity. }
  assert (Hrec : recognised results = []).
  { unfold recognised. clear Hp. induction Hall as [|r rs [Hn _] _ IH];
      [reflexivity|].
    simpl. rewrite Hn, String.eqb_refl. exact IH. }
  rewrite Hp. split; [|split; [|split]].
  - rewrite deliver_results. apply matchDetections_length.
  - rewrite deliver_results. exact Hall.
  - unfold deliver, updateStatistics.
    cbn [recognitionResults recognitionHistory statistics frameCountRef
         lastFrameTimeRef].
    destruct (1000 <=? now - lastFrameTimeRef p)%Z;
      cbn [statistics totalRecognitions]; [|reflexivity].
    rewrite Hrec. simpl. lia.
  - intro Hdue. apply Z.leb_le in Hdue.
    unfold deliver, updateStatistics.
    cbn [recognitionResults recognitionHistory statistics frameCountRef
         lastFrameTimeRef].
    rewrite Hdue. cbn [statistics recognitionAccuracy].
    unfold accuracyOf. rewrite Hrec.
    destruct (0 <? length results)%nat; [|reflexivity].
    unfold Qdiv. change (ofNat (length [])) with 0.
    rewrite Qmult_0_l. apply Qmult_0_l.
Qed.

Lemma empty_gallery_recognises_nobody_witness :
  Captured.registeredFaces (recognising []) = [] /\
  totalRecognitions
    (statistics
       (Rand.eval (processFrame_resume (recognising []) (Faces [face0]) 5000
                     pipeline_mid) tape_half 0))
  = totalRecognitions (statistics pipeline_mid).
Proof.
  split; [reflexivity|].
  destruct (@empty_gallery_recognises_nobody (recognising []) face0 [] 5000
              pipeline_mid tape_half 0 eq_refl) as (_ & _ & H & _).
  exact H.
Defined.

(** X12.  Between flushes the statistics are frozen: a pass with faces that
    comes less than 1000 ms after the window start publishes its results
    and adds them to the history, but leaves all four statistics,
    [detectedFaces] included, as they were; it only counts the frame. *)
Theorem statistics_frozen_between_flushes
    (c : Captured.t) (d : Detection) (ds : list Detection) (now : Z)
    (p : Pipeline) (tape : Rand.Tape) (k : nat) :
  (now - lastFrameTimeRef p < 1000)%Z ->
  let results :=
    Rand.eval (matchDetections (Captured.registeredFaces c) now (d :: ds))
      tape k in
  let p' := Rand.eval (processFrame_resume c (Faces (d :: ds)) now p) tape k in
  statistics p' = statistics p /\
  frameCountRef p' = S (frameCountRef p) /\
  lastFrameTimeRef p' = lastFrameTimeRef p /\
  recognitionResults p' = results /\
  recognitionHistory p' = addToHistory results (recognitionHistory p).
Proof.
  intros Hearly results p'.
  assert (Hp : p' = deliver results now p) by apply processFrame_resume_faces.
  rewrite Hp. split; [|split; [|split; [|split]]];
    try apply deliver_results; try apply deliver_history.
  all: unfold deliver, updateStatistics;
    cbn [recognitionResults recognitionHistory statistics frameCountRef
         lastFrameTimeRef];
    destruct (Z.leb_spec 1000 (now - lastFrameTimeRef p)); [lia|reflexivity].
Qed.

Lemma statistics_frozen_between_flushes_witness :
  (500 - lastFrameTimeRef pipeline_mid < 1000)%Z /\
  statistics
    (Rand.eval (processFrame_resume (recognising [alice]) (Faces [face0]) 500
                  pipeline_mid) tape_half 0)
  = statistics pipeline_mid.
Proof.
  assert (H : (500 - lastFrameTimeRef pipeline_mid < 1000)%Z)
    by (vm_compute; reflexivity).
  split; [exact H|].
  destruct (@statistics_frozen_between_flushes (recognising [alice]) face0 []
              500 pipeline_mid tape_half 0 H) as [E _].
  exact E.
Defined.

End Runs.

(** ** The WebSocket connection over whole runs *)

Section Connection.
Local Open Scope nat_scope.

Lemma setReadyState_same i r f : Ws.setReadyState i r f i = r.
Proof. unfold Ws.setReadyState. now rewrite Nat.eqb_refl. Qed.

Lemma setReadyState_other i j r f :
  j <> i -> Ws.setReadyState i r f j = f j.
Proof.
  intro H. unfold Ws.setReadyState.
  apply Nat.eqb_neq in H. now rewrite H.
Qed.

(** A socket that is not closed is the current one. *)
Lemma coherent_live_is_current w i :
  Ws.coherent w -> i < Ws.created w -> Ws.readyState w i <> Ws.CLOSED ->
  Ws.wsRef w = Some i.
Proof.
  intros (_ & HB & _) Hi Hl.
  destruct (Ws.wsRef w) as [c|] eqn:E.
  - destruct (Nat.eq_dec c i) as [->|Hne]; [reflexivity|].
    exfalso. apply Hl. apply HB; [exact Hi|]. congruence.
  - exfalso. apply Hl. apply HB; [exact Hi | discriminate].
Qed.

(** No reconnect is pending while a socket is live. *)
Lemma coherent_live_no_pending w i :
  Ws.coherent w -> i < Ws.created w -> Ws.readyState w i <> Ws.CLOSED ->
  Ws.pendingReconnects w = 0.
Proof.
  intros C Hi Hl. pose proof (coherent_live_is_current C Hi Hl) as Hcur.
  destruct C as (_ & _ & HC & HD & _).
  destruct (Ws.pendingReconnects w) as [|[|n]]; [reflexivity| |lia].
  exfalso. apply Hl. now apply HD.
Qed.

Lemma onopen_coherent i w : Ws.coherent w -> Ws.coherent (Ws.onopen i w).
Proof.
  intros C. unfold Ws.onopen.
  destruct (Nat.ltb_spec i (Ws.created w)) as [Hi|Hi]; [|exact C].
  destruct (Ws.readyState w i) eqn:Er; try exact C.
  assert (Hl : Ws.readyState w i <> Ws.CLOSED) by (rewrite Er; discriminate).
  pose proof (coherent_live_is_current C Hi Hl) as Hcur.
  pose proof (coherent_live_no_pending C Hi Hl) as Hp.
  destruct C as (HA & HB & HC & HD & HE & HF).
  unfold Ws.coherent. simpl. rewrite Hcur, Hp.
  split; [|split; [|split; [|split; [|split]]]].
  - intros j E. injection E as <-. exact Hi.
  - intros j Hj Hne. rewrite setReadyState_other by congruence.
    apply HB; [exact Hj|]. now rewrite Hcur.
  - lia.
  - discriminate.
  - intros _. exists i.
    split; [reflexivity | left; apply setReadyState_same].
  - discriminate.
Qed.

Lemma closing_coherent i w : Ws.coherent w -> Ws.coherent (Ws.closing i w).
Proof.
  intros C. unfold Ws.closing.
  destruct (Nat.ltb_spec i (Ws.created w)) as [Hi|Hi]; [|exact C].
  destruct (Ws.readyState w i) eqn:Er; try exact C.
  assert (Hl : Ws.readyState w i <> Ws.CLOSED) by (rewrite Er; discriminate).
  pose proof (coherent_live_is_current C Hi Hl) as Hcur.
  pose proof (coherent_live_no_pending C Hi Hl) as Hp.
  destruct C as (HA & HB & HC & HD & HE & HF).
  unfold Ws.coherent. simpl. rewrite Hcur, Hp.
  split; [|split; [|split; [|split; [|split]]]].
  - intros j E. injection E as <-. exact Hi.
  - intros j Hj Hne. rewrite setReadyState_other by congruence.
    apply HB; [exact Hj|]. now rewrite Hcur.
  - lia.
  - discriminate.
  - intros _. exists i.
    split; [reflexivity | right; apply setReadyState_same].
  - intro E. destruct (HF E) as (j & Hj & Hs).
    rewrite Hcur in Hj. injection Hj as <-. rewrite Er in Hs. discriminate.
Qed.

Lemma onclose_coherent i w : Ws.coherent w -> Ws.coherent (Ws.onclose i w).
Proof.
  intros C. unfold Ws.onclose.
  destruct (Nat.ltb_spec i (Ws.created w)) as [Hi|Hi]; [|exact C].
  destruct (Ws.is_closed (Ws.readyState w i)) eqn:Er; [exact C|].
  assert (Hl : Ws.readyState w i <> Ws.CLOSED)
    by (intro E; rewrite E in Er; discriminate).
  pose proof (coherent_live_is_current C Hi Hl) as Hcur.
  pose proof (coherent_live_no_pending C Hi Hl) as Hp.
  destruct C as (HA & HB & HC & HD & HE & HF).
  unfold Ws.coherent. simpl. rewrite Hcur, Hp.
  split; [|split; [|split; [|split; [|split]]]].
  - intros j E. injection E as <-. exact Hi.
  - intros j Hj Hne. rewrite setReadyState_other by congruence.
    apply HB; [exact Hj|]. now rewrite Hcur.
  - lia.
  - intros _ j E. injection E as <-. apply setReadyState_same.
  - discriminate.
  - discriminate.
Qed.

Lemma onerror_coherent i w : Ws.coherent w -> Ws.coherent (Ws.onerror i w).
Proof.
  intros C. unfold Ws.onerror.
  destruct (i <? Ws.created w); [|exact C].
  destruct C as (HA & HB & HC & HD & HE & HF).
  unfold Ws.coherent. simpl.
  split; [|split; [|split; [|split; [|split]]]];
    try assumption; discriminate.
Qed.

Lemma reconnect_coherent constructs w :
  Ws.coherent w -> Ws.coherent (Ws.reconnect constructs w).
Proof.
  intros C. unfold Ws.reconnect.
  destruct (Ws.pendingReconnects w) as [|n] eqn:Ep; [exact C|].
  destruct C as (HA & HB & HC & HD & HE & HF).
  assert (Hn : n = 0) by lia. subst n.
  assert (Hclosed : forall i, Ws.wsRef w = Some i ->
                              Ws.readyState w i = Ws.CLOSED)
    by (apply HD; exact Ep).
  unfold Ws.connectWebSocket, Ws.currentIsOpen. simpl.
  destruct (Ws.wsRef w) as [c|] eqn:Ec.
  - rewrite (Hclosed c eq_refl). simpl.
    destruct constructs; unfold Ws.coherent; simpl.
    + split; [|split; [|split; [|split; [|split]]]].
      * intros j E. injection E as <-. lia.
      * intros j Hj Hne.
        assert (Hjn : j <> Ws.created w) by congruence.
        rewrite setReadyState_other by exact Hjn.
        destruct (Nat.eq_dec j c) as [->|Hjc]; [now apply Hclosed|].
        apply HB; [lia | congruence].
      * lia.
      * discriminate.
      * discriminate.
      * intros _. exists (Ws.created w).
        split; [reflexivity | apply setReadyState_same].
    + split; [|split; [|split; [|split; [|split]]]];
        try assumption; try discriminate; try lia.
  - simpl.
    destruct constructs; unfold Ws.coherent; simpl.
    + split; [|split; [|split; [|split; [|split]]]].
      * intros j E. injection E as <-. lia.
      * intros j Hj Hne.
        assert (Hjn : j <> Ws.created w) by congruence.
        rewrite setReadyState_other by exact Hjn.
        apply HB; [lia | discriminate].
      * lia.
      * discriminate.
      * discriminate.
      * intros _. exists (Ws.created w).
        split; [reflexivity | apply setReadyState_same].
    + split; [|split; [|split; [|split; [|split]]]];
        try assumption; try discriminate; try lia.
Qed.

Lemma ws_step_coherent e w : Ws.coherent w -> Ws.coherent (Ws.step e w).
Proof.
  intro C. destruct e as [i|i|i|i data|constructs|i]; simpl.
  - now apply onopen_coherent.
  - now apply onclose_coherent.
  - now apply onerror_coherent.
  - exact C.
  - now apply reconnect_coherent.
  - now apply closing_coherent.
Qed.

Lemma ws_mount_coherent constructs : Ws.coherent (Ws.mount constructs).
Proof.
  unfold Ws.mount, Ws.connectWebSocket, Ws.currentIsOpen. simpl.
  destruct constructs; unfold Ws.coherent; simpl.
  - split; [|split; [|split; [|split; [|split]]]];
      try discriminate; try lia.
    + intros j E. injection E as <-. lia.
    + intros j Hj Hne. assert (j = 0) by lia. subst j. now elim Hne.
    + intros _. exists 0. split; reflexivity.
  - split; [|split; [|split; [|split; [|split]]]];
      try discriminate; try lia.
Qed.

Lemma ws_run_coherent events : forall w,
  Ws.coherent w -> Ws.coherent (Ws.run events w).
Proof.
  induction events as [|e events IH]; intros w C; [exact C|].
  simpl. apply IH. now apply ws_step_coherent.
Qed.

(** X14.  While the component is mounted there is never more than one socket
    that is not closed, and it is the one [wsRef] points to; at most one
    reconnect is pending, and only while no socket is live. *)
Theorem ws_one_socket_or_one_reconnect
    (constructs : bool) (events : list Ws.Event) :
  let w := Ws.run events (Ws.mount constructs) in
  (forall j, j < Ws.created w -> Ws.readyState w j <> Ws.CLOSED ->
             Ws.wsRef w = Some j) /\
  Ws.pendingReconnects w <= 1 /\
  (forall j, j < Ws.created w -> Ws.readyState w j <> Ws.CLOSED ->
             Ws.pendingReconnects w = 0).
Proof.
  intro w.
  pose proof (ws_run_coherent events (ws_mount_coherent constructs)) as C.
  fold w in C. split; [|split].
  - intros j Hj Hl. now apply coherent_live_is_current.
  - apply C.
  - intros j Hj Hl. now apply (coherent_live_no_pending C Hj).
Qed.

(** X15.  The status badge is never shown over a closed socket:
    whenever [wsStatus] is 'connected' the current socket has opened and
    its close event has not fired, so that it is open or in its closing
    handshake; and whenever it is 'connecting' the current socket is
    connecting. *)
Theorem ws_status_is_truthful
    (constructs : bool) (events : list Ws.Event) :
  let w := Ws.run events (Ws.mount constructs) in
  (Ws.wsStatus w = Ws.connected ->
   exists i, Ws.wsRef w = Some i /\
             (Ws.readyState w i = Ws.OPEN \/
              Ws.readyState w i = Ws.CLOSING)) /\
  (Ws.wsStatus w = Ws.connecting ->
   exists i, Ws.wsRef w = Some i /\ Ws.readyState w i = Ws.CONNECTING).
Proof.
  intro w.
  destruct (ws_run_coherent events (ws_mount_coherent constructs))
    as (_ & _ & _ & _ & HE & HF).
  split; assumption.
Qed.

Lemma close_then_reconnect i w :
  Ws.coherent w -> i < Ws.created w -> Ws.readyState w i <> Ws.CLOSED ->
  let w1 := Ws.onclose i w in
  let w2 := Ws.reconnect true w1 in
  Ws.wsStatus w1 = Ws.disconnected /\
  Ws.pendingReconnects w1 = 1 /\
  Ws.wsStatus w2 = Ws.connecting /\
  Ws.created w2 = S (Ws.created w) /\
  Ws.wsRef w2 = Some (Ws.created w) /\
  Ws.readyState w2 (Ws.created w) = Ws.CONNECTING /\
  Ws.pendingReconnects w2 = 0.
Proof.
  intros C Hi Hl.
  pose proof (coherent_live_is_current C Hi Hl) as Hcur.
  pose proof (coherent_live_no_pending C Hi Hl) as Hp.
  unfold Ws.onclose. apply Nat.ltb_lt in Hi. rewrite Hi.
  destruct (Ws.is_closed (Ws.readyState w i)) eqn:Er.
  { exfalso. apply Hl. destruct (Ws.readyState w i); try discriminate.
    reflexivity. }
  cbv zeta. unfold Ws.reconnect. simpl. rewrite Hp.
  unfold Ws.connectWebSocket, Ws.currentIsOpen. simpl.
  rewrite Hcur, setReadyState_same. simpl.
  repeat split; try reflexivity. apply setReadyState_same.
Qed.

(** X16.  Every close is followed by a reconnect, and the unmount cleanup does
    not cancel it: when a live socket closes, by itself or after the
    cleanup has called [close()] on it, the status becomes
    'disconnected', one reconnect is scheduled, and when it fires a new
    socket is constructed, made current and shown as 'connecting'. *)
Theorem ws_reconnects_after_every_close
    (constructs : bool) (events : list Ws.Event) (i : nat) :
  let w := Ws.run events (Ws.mount constructs) in
  i < Ws.created w ->
  Ws.is_closed (Ws.readyState w i) = false ->
  (let w1 := Ws.onclose i w in
   let w2 := Ws.reconnect true w1 in
   Ws.wsStatus w1 = Ws.disconnected /\
   Ws.pendingReconnects w1 = 1 /\
   Ws.wsStatus w2 = Ws.connecting /\
   Ws.wsRef w2 = Some (Ws.created w) /\
   Ws.readyState w2 (Ws.created w) = Ws.CONNECTING) /\
  (let w1 := Ws.onclose i (Ws.cleanup w) in
   let w2 := Ws.reconnect true w1 in
   Ws.pendingReconnects w1 = 1 /\
   Ws.wsStatus w2 = Ws.connecting /\
   Ws.wsRef w2 = Some (Ws.created w) /\
   Ws.readyState w2 (Ws.created w) = Ws.CONNECTING).
Proof.
  intros w Hi Hopen.
  pose proof (ws_run_coherent events (ws_mount_coherent constructs)) as C.
  fold w in C. clearbody w.
  assert (Hl : Ws.readyState w i <> Ws.CLOSED)
    by (intro E; rewrite E in Hopen; discriminate).
  pose proof (coherent_live_is_current C Hi Hl) as Hcur.
  pose proof (coherent_live_no_pending C Hi Hl) as Hp.
  split.
  - destruct (close_then_reconnect C Hi Hl) as (H1 & H2 & H3 & _ & H5 & H6 & _).
    repeat split; assumption.
  - assert (Hi' := Hi). apply Nat.ltb_lt in Hi'.
    unfold Ws.cleanup. rewrite Hcur.
    destruct (Ws.readyState w i) eqn:Er; try (now elim Hl);
      unfold Ws.onclose; simpl; rewrite Hi', ?Er, ?setReadyState_same; simpl;
      unfold Ws.reconnect; simpl; rewrite ?Hp;
      unfold Ws.connectWebSocket, Ws.currentIsOpen; simpl;
      rewrite ?Hcur, ?setReadyState_same; simpl;
      repeat split; try reflexivity; apply setReadyState_same.
Qed.

Lemma ws_reconnects_after_every_close_witness :
  let w := Ws.run [Ws.Opened 0] (Ws.mount true) in
  0 < Ws.created w /\
  Ws.is_closed (Ws.readyState w 0) = false /\
  Ws.wsStatus (Ws.reconnect true (Ws.onclose 0 (Ws.cleanup w)))
  = Ws.connecting.
Proof.
  intro w.
  assert (Hi : 0 < Ws.created w) by (vm_compute; lia).
  assert (Ho : Ws.is_closed (Ws.readyState w 0) = false) by reflexivity.
  split; [exact Hi|]. split; [exact Ho|].
  destruct (@ws_reconnects_after_every_close true [Ws.Opened 0] 0 Hi Ho)
    as [_ (_ & H & _)].
  exact H.
Defined.

End Connection.

(** ** The panels *)

Section Panels.
Local Open Scope nat_scope.

(** X13.  The "Recent History" panel shows the 10 most recent results
    the passes computed, newest first, after any run of passes. *)
Theorem recent_history_shows_latest_10
    (frames : list (Captured.t * Detected * Z)) (ctx : bool) (t0 : Z)
    (tape : Rand.Tape) (k : nat) :
  let run := Rand.eval (runPasses frames (pipeline (mount ctx t0)) [])
               tape k in
  recentHistory (fst run) = firstn 10 (snd run) /\
  length (recentHistory (fst run)) = Nat.min 10 (length (snd run)).
Proof.
  pose proof (@runPasses_history frames (pipeline (mount ctx t0)) []
                tape k eq_refl) as H.
  cbv zeta. unfold recentHistory. rewrite H, firstn_firstn.
  change (Nat.min 10 100) with 10.
  split; [reflexivity | apply length_firstn].
Qed.

End Panels.
